(** * lineax: the numeric utility layer ([lineax/_misc.py])

    A shallow embedding of the helper functions of [lineax/_misc.py] and
    of the concrete solve scenario of [tests/test_solve.py].

    Arrays hold IEEE 754 binary floating-point numbers, modelled with
    the executable specification of the Rocq library ([SpecFloat]).  A
    structured container ("pytree") is a finitely branching tree whose
    leaves are arrays; an array is the list of its elements in row-major
    (ravel) order.  Python exceptions are the [Raise] results of an error
    monad.

    The arithmetic of Python and of NumPy scalars is the arithmetic of
    the format, rounded to nearest even.  The operations of the array
    library (reductions, contractions, comparisons) are methods of
    classes: the functions of the module are written over them, with a
    reference instance on which they can be evaluated, and what is
    proved of the code for every backend names the laws it needs. *)

From Stdlib Require Import Strings.String.
From Stdlib Require Import ZArith List Bool Lia PeanoNat.
From Stdlib Require Import Floats.SpecFloat.
Import ListNotations.

Local Open Scope Z_scope.
#[local] Set Warnings "-register-all".

(* ================================================================== *)
(** ** Python exceptions *)

Inductive exn : Type :=
| AssertionError
| TypeError
| ValueError
| OverflowError
| NotImplementedError
(* the error taxonomy of the solve *)
| StructureMismatch
| TagViolation
| Singular
| NonConvergence
| Breakdown.

Inductive result (A : Type) : Type :=
| Ok (a : A)
| Raise (e : exn).

Arguments Ok {A} a.
Arguments Raise {A} e.

Definition bind {A B : Type} (r : result A) (k : A -> result B) : result B :=
  match r with
  | Ok a => k a
  | Raise e => Raise e
  end.

Notation "x <- r ;; k" := (bind r (fun x => k))
  (at level 61, r at next level, right associativity).

(* ================================================================== *)
(** ** Floating-point numbers *)

Definition float : Type := spec_float.

(** A binary interchange format: the precision (with the hidden bit) and
    the exponent of the infinities. *)
Record format : Type := Format { fprec : Z; femax : Z }.

Definition binary16 : format := Format 11 16.
Definition bfloat16_format : format := Format 8 128.
Definition binary32 : format := Format 24 128.
Definition binary64 : format := Format 53 1024.

Definition pzero : float := S754_zero false.
Definition pinf : float := S754_infinity false.
Definition nan : float := S754_nan.

Definition isnan (x : float) : bool :=
  match x with S754_nan => true | _ => false end.

Definition isinf (x : float) : bool :=
  match x with S754_infinity _ => true | _ => false end.

(** The sign bit is clear and the value is a number: [+0], a positive
    finite number or [+inf]. *)
Definition nonneg (x : float) : bool :=
  match x with
  | S754_zero false | S754_infinity false | S754_finite false _ _ => true
  | _ => false
  end.

Section Arith.
Variable fmt : format.

Definition fadd : float -> float -> float := SFadd (fprec fmt) (femax fmt).
Definition fsub : float -> float -> float := SFsub (fprec fmt) (femax fmt).
Definition fmul : float -> float -> float := SFmul (fprec fmt) (femax fmt).
Definition fdiv : float -> float -> float := SFdiv (fprec fmt) (femax fmt).
Definition fsqrt : float -> float := SFsqrt (fprec fmt) (femax fmt).

(** Conversion of a Python [int], rounded to nearest even. *)
Definition of_Z (z : Z) : float :=
  binary_normalize (fprec fmt) (femax fmt) z 0 false.

(** [m * 2^e], rounded to nearest even. *)
Definition of_Z2 (m e : Z) : float :=
  binary_normalize (fprec fmt) (femax fmt) m e false.

Definition fone : float := of_Z 1.
End Arith.

Definition fneg : float -> float := SFopp.
Definition fabs : float -> float := SFabs.
Definition feqb : float -> float -> bool := SFeqb.
Definition fltb : float -> float -> bool := SFltb.
Definition fleb : float -> float -> bool := SFleb.

(** [jnp.where] on scalars. *)
Definition where_ {A : Type} (pred : bool) (a b : A) : A :=
  if pred then a else b.

(* ================================================================== *)
(** ** Structured containers *)

(** The containers the pytree registry knows: what a node is, with the
    keys of a dict. *)
Inductive NodeKind : Type :=
| PyNone
| PyTuple
| PyList
| PyDict (keys : list string).

Inductive PyTree (A : Type) : Type :=
| Leaf (a : A)
| Node (kind : NodeKind) (children : list (PyTree A)).

Arguments Leaf {A} a.
Arguments Node {A} kind children.

(** [jtu.tree_leaves]: the leaves, left to right. *)
Fixpoint tree_leaves {A : Type} (t : PyTree A) : list A :=
  match t with
  | Leaf a => [a]
  | Node _ ts => flat_map tree_leaves ts
  end.

(** [jtu.tree_map] with one tree. *)
Fixpoint tree_map {A B : Type} (f : A -> B) (t : PyTree A) : PyTree B :=
  match t with
  | Leaf a => Leaf (f a)
  | Node k ts => Node k (map (tree_map f) ts)
  end.

(** An array, as the list of its elements in ravel order. *)
Definition Array (A : Type) : Type := list A.

(** [jfu.ravel_pytree]: every leaf ravelled, all of them concatenated. *)
Definition ravel_pytree {A : Type} (x : PyTree (Array A)) : Array A :=
  concat (tree_leaves x).

(* ================================================================== *)
(** ** The array backend *)

(** The operations on arrays belong to the host library, which compiles
    them for the device.  The source fixes neither the order in which a
    reduction adds its terms, nor how a contraction rounds its products,
    nor what the device makes of subnormal numbers.  These operations
    are therefore the methods of classes; the functions of the module
    are written over the classes, and a property that is to hold of the
    code is proved for every instance, from the laws it names.  The
    instances declared here are the reference backend: arithmetic
    rounded to nearest even after every operation, reductions taken
    from left to right, subnormal numbers kept. *)

(** [lax.Precision]: the number of passes an accelerator may use for a
    contraction. *)
Inductive Precision : Type := DEFAULT | HIGH | HIGHEST.

Definition complex : Type := (float * float)%type.

(** The element types [_two_norm] and [tree_dot] are polymorphic in,
    with the elementwise operations of the backend and its contraction
    [lax.dot_general] of two vectors of the same length at a precision
    ([None] when the caller names none). *)
Class Scalar (fmt : format) (A : Type) : Type := {
  s_zero : A;
  s_of_Z : Z -> A;
  s_add : A -> A -> A;
  s_mul : A -> A -> A;
  s_conj : A -> A;
  s_real : A -> float;
  s_div : A -> float -> A;
  dot_general : option Precision -> Array A -> Array A -> A
}.

(** The reductions and the square root on real arrays of a format. *)
Class Backend (fmt : format) : Type := {
  reduce_sum : list float -> float;
  lax_sqrt : float -> float
}.

(** The operations that compare and select: [abs], [<], [==], [max] and
    the maximum of an array that has a first element. *)
Class Order : Type := {
  lax_abs : float -> float;
  lax_lt : float -> float -> bool;
  lax_eq : float -> float -> bool;
  lax_max : float -> float -> float;
  reduce_max : float -> list float -> float
}.

(** The reference contraction of two real vectors: the products,
    rounded, added to [+0] from left to right. *)
Definition ieee_dot (fmt : format) (x y : list float) : float :=
  fold_left (fun a xy => fadd fmt a (fmul fmt (fst xy) (snd xy)))
            (combine x y) pzero.

#[export] Instance real_scalar (fmt : format) : Scalar fmt float := {|
  s_zero := pzero;
  s_of_Z := of_Z fmt;
  s_add := fadd fmt;
  s_mul := fmul fmt;
  s_conj := fun x => x;
  s_real := fun x => x;
  s_div := fdiv fmt;
  dot_general := fun _ => ieee_dot fmt
|}.

(** [(a + bi) (c + di) = (ac - bd) + (ad + bc) i], each operation rounded. *)
Definition cmul (fmt : format) (x y : complex) : complex :=
  let '(a, b) := x in
  let '(c, d) := y in
  (fsub fmt (fmul fmt a c) (fmul fmt b d),
   fadd fmt (fmul fmt a d) (fmul fmt b c)).

Definition cadd (fmt : format) (x y : complex) : complex :=
  (fadd fmt (fst x) (fst y), fadd fmt (snd x) (snd y)).

Definition cconj (x : complex) : complex := (fst x, fneg (snd x)).

(** A complex number over a real one: both parts divided. *)
Definition cdiv_real (fmt : format) (x : complex) (y : float) : complex :=
  (fdiv fmt (fst x) y, fdiv fmt (snd x) y).

(** The reference contraction of two complex vectors; nothing is
    conjugated. *)
Definition ieee_cdot (fmt : format) (x y : list complex) : complex :=
  fold_left (fun a xy => cadd fmt a (cmul fmt (fst xy) (snd xy)))
            (combine x y) (pzero, pzero).

#[export] Instance complex_scalar (fmt : format) : Scalar fmt complex := {|
  s_zero := (pzero, pzero);
  s_of_Z := fun z => (of_Z fmt z, pzero);
  s_add := cadd fmt;
  s_mul := cmul fmt;
  s_conj := cconj;
  s_real := fst;
  s_div := cdiv_real fmt;
  dot_general := fun _ => ieee_cdot fmt
|}.

#[export] Instance ieee_backend (fmt : format) : Backend fmt := {|
  reduce_sum := fun l => fold_left (fadd fmt) l pzero;
  lax_sqrt := fsqrt fmt
|}.

(** The reference maximum of two numbers: a NaN operand gives NaN. *)
Definition ieee_maximum (a b : float) : float :=
  if isnan a then a
  else if isnan b then b
  else if fltb a b then b else a.

#[export] Instance ieee_order : Order := {|
  lax_abs := fabs;
  lax_lt := fltb;
  lax_eq := feqb;
  lax_max := ieee_maximum;
  reduce_max := fun x0 x' => fold_left ieee_maximum x' x0
|}.

(** A subnormal number of a format: a finite number below the smallest
    normal one, [2^(2 - emax)]. *)
Definition is_subnormal (fmt : format) (x : float) : bool :=
  match x with
  | S754_finite _ m e => Zpos (digits2_pos m) + e <? 3 - femax fmt
  | _ => false
  end.

(** Subnormal numbers replaced by the zero of their sign. *)
Definition flush (fmt : format) (x : float) : float :=
  match x with
  | S754_finite s _ _ => if is_subnormal fmt x then S754_zero s else x
  | _ => x
  end.

(** A backend that takes subnormal numbers for zero, in the operations
    that compare and select. *)
Definition flushing_order (fmt : format) : Order := {|
  lax_abs := fun x => fabs (flush fmt x);
  lax_lt := fun x y => fltb (flush fmt x) (flush fmt y);
  lax_eq := fun x y => feqb (flush fmt x) (flush fmt y);
  lax_max := fun x y => ieee_maximum (flush fmt x) (flush fmt y);
  reduce_max := fun x0 x' =>
    fold_left ieee_maximum (map (flush fmt) x') (flush fmt x0)
|}.

(* ================================================================== *)
(** ** The contractions [jnp.dot] and [jnp.vdot] *)

Section Contractions.
Variable fmt : format.
Context {A : Type} `{Scalar fmt A}.

(** [jnp.dot] of two vectors: a shape error unless the lengths agree. *)
Definition jnp_dot (x y : Array A) : result A :=
  if Nat.eqb (length x) (length y) then Ok (dot_general None x y)
  else Raise TypeError.

(** [jnp.vdot]: both arguments ravelled, the first one conjugated; a
    shape error unless they have as many elements. *)
Definition jnp_vdot (a b : Array A) (precision : Precision) : result A :=
  if Nat.eqb (length a) (length b)
  then Ok (dot_general (Some precision) (map s_conj a) b)
  else Raise TypeError.
End Contractions.

(* ================================================================== *)
(** ** [two_norm] and its derivative rule *)

Section TwoNorm.
Variable fmt : format.
Context {B : Backend fmt} {O : Order}.

(** [jnp.sum] and [jnp.sqrt] on a real array. *)
Definition jnp_sum (l : list float) : float := reduce_sum l.

Definition jnp_sqrt (x : float) : float := lax_sqrt x.

Definition _two_norm {A : Type} `{Scalar fmt A} (x : Array A) : float :=
  let x_sq := map (fun xi => s_real (s_mul xi (s_conj xi))) x in
  jnp_sqrt (jnp_sum x_sq).

(** An entry into the function that carries the custom derivative rule. *)
Inductive call : Type := Call_two_norm.

(** [two_norm], with the log of the calls it makes. *)
Definition two_norm_run {A : Type} `{Scalar fmt A} (x : PyTree (Array A))
  : float * list call :=
  let x := ravel_pytree x in
  if Nat.eqb (length x) 0 then (pzero, [])
  else (_two_norm x, [Call_two_norm]).

Definition two_norm {A : Type} `{Scalar fmt A} (x : PyTree (Array A)) : float :=
  fst (two_norm_run x).

(** The rule, on real and on complex vectors: the integers [0] and [1]
    of the two [jnp.where] take the dtype of the other operand. *)
Definition _two_norm_jvp {A : Type} `{Scalar fmt A} (x tx : Array A)
  : result (float * A) :=
  let out := _two_norm x in
  let pred := lax_eq out pzero || isinf out in
  d <- jnp_dot fmt x tx ;;
  let numerator := where_ pred (s_of_Z 0) d in
  let denominator := where_ pred (fone fmt) out in
  let t_out := s_div numerator denominator in
  Ok (out, t_out).
End TwoNorm.

(* ================================================================== *)
(** ** [tree_dot] *)

Section TreeDot.
Variable fmt : format.
Context {A : Type} `{Scalar fmt A}.

(** The value built by Python's [sum]: it starts from the [int] zero
    and becomes an array scalar at the first addition. *)
Inductive pynum : Type :=
| PyInt (z : Z)
| PyArr (a : A).

(** The weakly typed Python [int] takes the dtype of the array. *)
Definition py_add (acc : pynum) (v : A) : pynum :=
  match acc with
  | PyInt z => PyArr (s_add (s_of_Z z) v)
  | PyArr a => PyArr (s_add a v)
  end.

(** [sum(... for ai, bi in zip(a, b))] from the accumulator [acc]. *)
Fixpoint sum_vdots (acc : pynum) (ab : list (Array A * Array A))
  : result pynum :=
  match ab with
  | [] => Ok acc
  | (ai, bi) :: ab' =>
      v <- jnp_vdot fmt ai bi HIGHEST ;;
      sum_vdots (py_add acc v) ab'
  end.

Definition tree_dot (a b : PyTree (Array A)) : result pynum :=
  let a := tree_leaves a in
  let b := tree_leaves b in
  if negb (Nat.eqb (length a) (length b)) then Raise AssertionError
  else sum_vdots (PyInt 0) (combine a b).
End TreeDot.

(* ================================================================== *)
(** ** [max_norm] *)

(** A list comprehension whose body may raise. *)
Fixpoint comprehension {A B : Type} (f : A -> result B) (l : list A)
  : result (list B) :=
  match l with
  | [] => Ok []
  | a :: l' =>
      b <- f a ;;
      bs <- comprehension f l' ;;
      Ok (b :: bs)
  end.

(** [jtu.tree_reduce] without initializer, on the leaves of its tree:
    [functools.reduce] of an empty sequence is a [TypeError]. *)
Definition tree_reduce {A : Type} (f : A -> A -> A) (leaves : list A)
  : result A :=
  match leaves with
  | [] => Raise TypeError
  | a :: l => Ok (fold_left f l a)
  end.

Section MaxNorm.
Context {O : Order}.

(** [jnp.maximum] on scalars. *)
Definition jnp_maximum (a b : float) : float := lax_max a b.

(** [jnp.max] of an array: a zero-size array has no maximum. *)
Definition jnp_max (x : Array float) : result float :=
  match x with
  | [] => Raise ValueError
  | x0 :: x' => Ok (reduce_max x0 x')
  end.

(** [jnp.abs], elementwise. *)
Definition jnp_abs (x : Array float) : Array float := map lax_abs x.

Definition max_norm (x : PyTree (Array float)) : result float :=
  maxima <- comprehension (fun xi => jnp_max (jnp_abs xi)) (tree_leaves x) ;;
  tree_reduce jnp_maximum maxima.
End MaxNorm.

(* ================================================================== *)
(** ** Dtypes *)

Inductive dtype : Type :=
| bool_
| int8 | int16 | int32 | int64
| uint8 | uint16 | uint32 | uint64
| bfloat16 | float16 | float32 | float64
| complex64 | complex128.

(** The format of a floating dtype, or of the two components of a
    complex one; the other dtypes have none. *)
Definition float_format (d : dtype) : option format :=
  match d with
  | bfloat16 => Some bfloat16_format
  | float16 => Some binary16
  | float32 | complex64 => Some binary32
  | float64 | complex128 => Some binary64
  | _ => None
  end.

(** [jnp.issubdtype(d, jnp.inexact)]: floating or complex. *)
Definition issubdtype_inexact (d : dtype) : bool :=
  match float_format d with Some _ => true | None => false end.

(** [jnp.finfo(d).eps]: the gap between [1] and the next number;
    [finfo] of a dtype that is not inexact is a [ValueError]. *)
Definition finfo_eps (d : dtype) : result float :=
  match float_format d with
  | Some f => Ok (of_Z2 f 1 (1 - fprec f))
  | None => Raise ValueError
  end.

(** The working format of a dtype: the arithmetic its scalars use. *)
Definition working_format (d : dtype) : format :=
  match float_format d with Some f => f | None => binary32 end.

(** [jax.dtypes.canonicalize_dtype]: without 64-bit mode the 64-bit
    dtypes are replaced by their 32-bit counterparts. *)
Definition canonicalize_dtype (x64 : bool) (d : dtype) : dtype :=
  if x64 then d
  else match d with
       | int64 => int32
       | uint64 => uint32
       | float64 => float32
       | complex128 => complex64
       | _ => d
       end.

(* ================================================================== *)
(** ** [resolve_rcond] *)

(** The conversion of a number to a format, rounded to nearest even. *)
Definition round_to (fmt : format) (x : float) : float :=
  match x with
  | S754_finite s m e =>
      binary_normalize (fprec fmt) (femax fmt) (cond_Zopp s (Zpos m)) e s
  | _ => x
  end.

(** A tolerance that is supplied: a Python [float], or an array scalar
    of the floating dtype the tolerance is resolved for, canonicalized
    (the dtype [jnp.where] then returns). *)
Inductive tolerance : Type :=
| PyFloat (v : float)
| ArrayScalar (v : float).

Definition tolerance_value (rcond : tolerance) : float :=
  match rcond with PyFloat v | ArrayScalar v => v end.

Section ResolveRcond.
Context {O : Order}.

(** [rcond < 0]: Python's comparison when [rcond] is a [float], the
    backend's when it is an array. *)
Definition negative (rcond : tolerance) : bool :=
  match rcond with
  | PyFloat v => fltb v pzero
  | ArrayScalar v => lax_lt v pzero
  end.

(** [jnp.where] returns the selected operand in the dtype its operands
    promote to: here the dtype of [eps], canonicalized; [x64] is the
    process-wide [jax_enable_x64]. *)
Definition resolve_rcond (x64 : bool) (rcond : option tolerance) (n m : Z)
    (dtype : dtype) : result float :=
  match rcond with
  | None =>
      eps <- finfo_eps dtype ;;
      Ok (fmul (working_format dtype) eps (of_Z (working_format dtype) (Z.max n m)))
  | Some rcond =>
      eps <- finfo_eps dtype ;;
      let out := working_format (canonicalize_dtype x64 dtype) in
      Ok (round_to out (where_ (negative rcond) eps (tolerance_value rcond)))
  end.
End ResolveRcond.

(* ================================================================== *)
(** ** [jacobian] *)

(** Python's comparison [z <= x] of an [int] with a [float]: exact. *)
Definition Z_leb_float (z : Z) (x : float) : bool :=
  match x with
  | S754_nan => false
  | S754_infinity s => negb s
  | S754_zero _ => z <=? 0
  | S754_finite s m e =>
      match e with
      | Zneg p => z * 2 ^ Zpos p <=? cond_Zopp s (Zpos m)
      | _ => z <=? cond_Zopp s (Zpos m) * 2 ^ e
      end
  end.

(** The Python [float] literal [1.5]. *)
Definition one_and_a_half : float := of_Z2 binary64 3 (-1).

(** Python's conversion of an [int] to a [float], rounded to nearest
    even: an [OverflowError] when the [int] is beyond the largest
    [float]. *)
Definition float_of_int (z : Z) : result float :=
  let x := of_Z binary64 z in
  if isinf x then Raise OverflowError else Ok x.

(** Python's product of a [float] and an [int]: the [int] is converted
    first; Python [float]s are binary64. *)
Definition float_mul_int (x : float) (z : Z) : result float :=
  y <- float_of_int z ;;
  Ok (fmul binary64 x y).

(** The condition of the heuristic: [or] evaluates its second operand
    only when the first one is false. *)
Definition prefer_forward (in_size out_size : Z) : result bool :=
  if in_size <? 100 then Ok true
  else
    bound <- float_mul_int one_and_a_half out_size ;;
    Ok (Z_leb_float in_size bound).

Section Jacobian.
(** The differentiation host: [jax.jacfwd] and [jax.jacrev] turn a
    function into the function computing its Jacobian. *)
Variables Fn JacFn : Type.
Variable jax_jacfwd : Fn -> bool -> JacFn.
Variable jax_jacrev : Fn -> bool -> JacFn.

Definition jacobian (fn : Fn) (in_size out_size : Z) (has_aux : bool)
  : result JacFn :=
  forward <- prefer_forward in_size out_size ;;
  if forward then Ok (jax_jacfwd fn has_aux)
  else Ok (jax_jacrev fn has_aux).
End Jacobian.

Arguments jacobian {Fn JacFn} jax_jacfwd jax_jacrev fn in_size out_size has_aux.

(* ================================================================== *)
(** ** [inexact_asarray] *)

(** [jax.config.jax_enable_x64] is read from the process-wide
    configuration: here it is the argument [x64]. *)
Definition default_floating_dtype (x64 : bool) : dtype :=
  if x64 then float64 else float32.

(** The Python scalars [ArrayLike] admits. *)
Inductive pyscalar : Type :=
| py_bool (b : bool)
| py_int (z : Z)
| py_float (x : float)
| py_complex (re im : float).

Section Asarray.
(** The elements of an array, and the two conversions of the host: the
    array of a dtype made from a Python scalar, and the conversion of
    every element of an array to a dtype. *)
Variable Data : Type.
Variable np_asarray : dtype -> pyscalar -> Data.
Variable convert_element_type : dtype -> Data -> Data.

Record ndarray : Type := NDArray { arr_dtype : dtype; arr_data : Data }.

(** What [ArrayLike] admits: Python scalars and arrays. *)
Inductive ArrayLike : Type :=
| Py (v : pyscalar)
| Arr (a : ndarray).

(** [jnp.result_type]. *)
Definition result_type (x64 : bool) (x : ArrayLike) : dtype :=
  match x with
  | Py (py_bool _) => bool_
  | Py (py_int _) => canonicalize_dtype x64 int64
  | Py (py_float _) => canonicalize_dtype x64 float64
  | Py (py_complex _ _) => canonicalize_dtype x64 complex128
  | Arr a => canonicalize_dtype x64 (arr_dtype a)
  end.

(** A Python [int] handed to a function of the host is given the
    default integer dtype, [int64] in 64-bit mode and [int32] without,
    and has to fit it. *)
Definition fits_default_int (x64 : bool) (x : ArrayLike) : bool :=
  match x with
  | Py (py_int z) =>
      if x64 then (- 2 ^ 63 <=? z) && (z <? 2 ^ 63)
      else (- 2 ^ 31 <=? z) && (z <? 2 ^ 31)
  | _ => true
  end.

(** [jnp.asarray(x, dtype=dtype)]. *)
Definition jnp_asarray (dtype : dtype) (x : ArrayLike) : ndarray :=
  match x with
  | Py v => NDArray dtype (np_asarray dtype v)
  | Arr a => NDArray dtype (convert_element_type dtype (arr_data a))
  end.

(** [_asarray], under [jax.custom_jvp]: an [OverflowError] for a Python
    [int] that does not fit. *)
Definition _asarray (x64 : bool) (dtype : dtype) (x : ArrayLike)
  : result ndarray :=
  if negb (fits_default_int x64 x) then Raise OverflowError
  else Ok (jnp_asarray dtype x).

Definition _asarray_jvp (x64 : bool) (dtype : dtype) (x tx : ArrayLike)
  : result (ndarray * ndarray) :=
  primal <- _asarray x64 dtype x ;;
  tangent <- _asarray x64 dtype tx ;;
  Ok (primal, tangent).

Definition inexact_asarray (x64 : bool) (x : ArrayLike) : result ndarray :=
  let dtype := result_type x64 x in
  let dtype :=
    if negb (issubdtype_inexact (result_type x64 x))
    then default_floating_dtype x64
    else dtype in
  _asarray x64 dtype x.
End Asarray.

Arguments NDArray {Data} arr_dtype arr_data.
Arguments arr_dtype {Data} n.
Arguments arr_data {Data} n.
Arguments Py {Data} v.
Arguments Arr {Data} a.
Arguments result_type {Data} x64 x.
Arguments fits_default_int {Data} x64 x.
Arguments jnp_asarray {Data} np_asarray convert_element_type dtype x.
Arguments _asarray {Data} np_asarray convert_element_type x64 dtype x.
Arguments _asarray_jvp {Data} np_asarray convert_element_type x64 dtype x tx.
Arguments inexact_asarray {Data} np_asarray convert_element_type x64 x.

(* ================================================================== *)
(** ** Flattening of structured containers *)

(** [PyTreeDef]: a tree with its leaves erased. *)
Inductive PyTreeDef : Type :=
| DLeaf
| DNode (kind : NodeKind) (children : list PyTreeDef).

Fixpoint tree_structure {A : Type} (t : PyTree A) : PyTreeDef :=
  match t with
  | Leaf _ => DLeaf
  | Node k ts => DNode k (map tree_structure ts)
  end.

Definition tree_flatten {A : Type} (t : PyTree A) : list A * PyTreeDef :=
  (tree_leaves t, tree_structure t).

(** Rebuilds a tree from a prefix of [leaves]; returns the rest. *)
Fixpoint unflatten_from {A : Type} (d : PyTreeDef) (leaves : list A)
  : option (PyTree A * list A) :=
  match d with
  | DLeaf =>
      match leaves with
      | a :: rest => Some (Leaf a, rest)
      | [] => None
      end
  | DNode k ds =>
      let fix go (ds : list PyTreeDef) (leaves : list A)
        : option (list (PyTree A) * list A) :=
        match ds with
        | [] => Some ([], leaves)
        | d' :: ds' =>
            match unflatten_from d' leaves with
            | Some (t, rest) =>
                match go ds' rest with
                | Some (ts, rest') => Some (t :: ts, rest')
                | None => None
                end
            | None => None
            end
        end in
      match go ds leaves with
      | Some (ts, rest) => Some (Node k ts, rest)
      | None => None
      end
  end.

(** [jtu.tree_unflatten]: a [ValueError] unless the leaves are exactly
    as many as the structure has. *)
Definition tree_unflatten {A : Type} (treedef : PyTreeDef) (leaves : list A)
  : result (PyTree A) :=
  match unflatten_from treedef leaves with
  | Some (t, []) => Ok t
  | _ => Raise ValueError
  end.

(* ================================================================== *)
(** ** [functools.lru_cache] *)

Section LRU.
Variables K V : Type.
(** The keys Python can hash, and the equality of cache keys: Python's
    [hash] and [==]. *)
Variable hashable : K -> bool.
Variable key_eqb : K -> K -> bool.
Variable maxsize : nat.
Variable user_function : K -> result V.

(** The entries, most recently used first. *)
Definition lru : Type := list (K * V).

(** The entry of a key, and the cache without it. *)
Fixpoint lru_find (k : K) (c : lru) : option ((K * V) * lru) :=
  match c with
  | [] => None
  | (k', v) :: c' =>
      if key_eqb k k' then Some ((k', v), c')
      else match lru_find k c' with
           | Some (entry, rest) => Some (entry, (k', v) :: rest)
           | None => None
           end
  end.

(** One call of the wrapper: the key is hashed first, a [TypeError] when
    it cannot be; a hit moves the entry to the front; a miss calls the
    function and stores its result, evicting the least recently used
    entry of a full cache; an exception stores nothing. *)
Definition lru_call (c : lru) (k : K) : result V * lru :=
  if negb (hashable k) then (Raise TypeError, c)
  else
    match lru_find k c with
    | Some (entry, rest) => (Ok (snd entry), entry :: rest)
    | None =>
        match user_function k with
        | Ok v =>
            (Ok v,
             (k, v) :: (if Nat.leb maxsize (length c) then removelast c else c))
        | Raise e => (Raise e, c)
        end
    end.

(** A sequence of calls on one cache: the results, in order, and the
    final cache. *)
Fixpoint lru_calls (c : lru) (ks : list K) : list (result V) * lru :=
  match ks with
  | [] => ([], c)
  | k :: ks' =>
      let '(r, c') := lru_call c k in
      let '(rs, c'') := lru_calls c' ks' in
      (r :: rs, c'')
  end.
End LRU.

Arguments lru_find {K V} key_eqb k c.
Arguments lru_call {K V} hashable key_eqb maxsize user_function c k.
Arguments lru_calls {K V} hashable key_eqb maxsize user_function c ks.

(* ================================================================== *)
(** ** [cached_eval_shape] *)

Definition dtype_eqb (a b : dtype) : bool :=
  match a, b with
  | bool_, bool_ | int8, int8 | int16, int16 | int32, int32 | int64, int64
  | uint8, uint8 | uint16, uint16 | uint32, uint32 | uint64, uint64
  | bfloat16, bfloat16 | float16, float16 | float32, float32
  | float64, float64 | complex64, complex64 | complex128, complex128 => true
  | _, _ => false
  end.

Fixpoint list_eqb {A : Type} (eqb : A -> A -> bool) (l l' : list A) : bool :=
  match l, l' with
  | [], [] => true
  | a :: r, a' :: r' => eqb a a' && list_eqb eqb r r'
  | _, _ => false
  end.

Definition NodeKind_eqb (k k' : NodeKind) : bool :=
  match k, k' with
  | PyNone, PyNone | PyTuple, PyTuple | PyList, PyList => true
  | PyDict ks, PyDict ks' => list_eqb String.eqb ks ks'
  | _, _ => false
  end.

Fixpoint PyTreeDef_eqb (d d' : PyTreeDef) : bool :=
  match d, d' with
  | DLeaf, DLeaf => true
  | DNode k ds, DNode k' ds' =>
      NodeKind_eqb k k' &&
      (fix go (ds ds' : list PyTreeDef) : bool :=
         match ds, ds' with
         | [], [] => true
         | x :: r, x' :: r' => PyTreeDef_eqb x x' && go r r'
         | _, _ => false
         end) ds ds'
  | _, _ => false
  end.

Section CachedEvalShape.
(** The values of the leaves that are not arrays of the host
    (functions, Python scalars, sets, NumPy arrays, ...), compared by
    Python's [==]. *)
Variable Static : Type.
Variable static_eqb : Static -> Static -> bool.
(** The elements of an array. *)
Variable Data : Type.

(** A leaf: an array of the host, with its shape, its dtype, whether
    the dtype is weak, and its elements; the description of an array by
    shape and dtype; or another value, one that Python can hash or one
    that it cannot. *)
Inductive leaf : Type :=
| ArrayLeaf (shape : list nat) (dt : dtype) (weak_type : bool) (data : Data)
| ShapeDtypeStruct (shape : list nat) (dt : dtype)
| StaticLeaf (v : Static)
| UnhashableLeaf (v : Static).

Definition _to_struct (x : leaf) : leaf :=
  match x with
  | ArrayLeaf shape dt _ _ => ShapeDtypeStruct shape dt
  | _ => x
  end.

(** [hash] of a leaf is defined; an array is not hashable. *)
Definition leaf_hashable (x : leaf) : bool :=
  match x with
  | ShapeDtypeStruct _ _ | StaticLeaf _ => true
  | ArrayLeaf _ _ _ _ | UnhashableLeaf _ => false
  end.

(** [==] of two hashable leaves. *)
Definition leaf_eqb (x y : leaf) : bool :=
  match x, y with
  | ShapeDtypeStruct s d, ShapeDtypeStruct s' d' =>
      list_eqb Nat.eqb s s' && dtype_eqb d d'
  | StaticLeaf v, StaticLeaf v' => static_eqb v v'
  | _, _ => false
  end.

(** The arguments of [_cached_eval_shape]: [(leaves, treedef)]. *)
Definition key : Type := (list leaf * PyTreeDef)%type.

Definition key_hashable (k : key) : bool := forallb leaf_hashable (fst k).

Definition key_eqb (k k' : key) : bool :=
  list_eqb leaf_eqb (fst k) (fst k') && PyTreeDef_eqb (snd k) (snd k').

(** The result of shape inference, and the host's inference
    [eqx.filter_eval_shape(fn, *args, **kwargs)]. *)
Variable Out : Type.
Variable filter_eval_shape :
  PyTree leaf -> PyTree leaf -> PyTree leaf -> result Out.

(** The body of [_cached_eval_shape], under the decorator. *)
Definition _cached_eval_shape_body (k : key) : result Out :=
  let '(leaves, treedef) := k in
  t <- tree_unflatten treedef leaves ;;
  match t with
  | Node PyTuple [fn; args; kwargs] => filter_eval_shape fn args kwargs
  | _ => Raise ValueError
  end.

Definition _cached_eval_shape (cache : lru key Out) (k : key)
  : result Out * lru key Out :=
  lru_call key_hashable key_eqb 128 _cached_eval_shape_body cache k.

(** The key [cached_eval_shape] builds from its arguments. *)
Definition signature (fn args kwargs : PyTree leaf) : key :=
  let tree := tree_map _to_struct (Node PyTuple [fn; args; kwargs]) in
  let '(leaves, treedef) := tree_flatten tree in
  (leaves, treedef).

Definition cached_eval_shape (cache : lru key Out)
    (fn args kwargs : PyTree leaf) : result Out * lru key Out :=
  _cached_eval_shape cache (signature fn args kwargs).

(** A sequence of calls threading the process-wide cache. *)
Fixpoint cached_eval_shapes (cache : lru key Out)
    (calls : list (PyTree leaf * PyTree leaf * PyTree leaf))
  : list (result Out) * lru key Out :=
  match calls with
  | [] => ([], cache)
  | (fn, args, kwargs) :: calls' =>
      let '(r, cache') := cached_eval_shape cache fn args kwargs in
      let '(rs, cache'') := cached_eval_shapes cache' calls' in
      (r :: rs, cache'')
  end.
End CachedEvalShape.

Arguments ArrayLeaf {Static Data} shape dt weak_type data.
Arguments ShapeDtypeStruct {Static Data} shape dt.
Arguments StaticLeaf {Static Data} v.
Arguments UnhashableLeaf {Static Data} v.
Arguments _to_struct {Static Data} x.
Arguments leaf_hashable {Static Data} x.
Arguments leaf_eqb {Static} static_eqb {Data} x y.
Arguments key_hashable {Static Data} k.
Arguments key_eqb {Static} static_eqb {Data} k k'.
Arguments _cached_eval_shape_body {Static Data Out} filter_eval_shape k.
Arguments _cached_eval_shape {Static} static_eqb {Data Out}
  filter_eval_shape cache k.
Arguments signature {Static Data} fn args kwargs.
Arguments cached_eval_shape {Static} static_eqb {Data Out}
  filter_eval_shape cache fn args kwargs.
Arguments cached_eval_shapes {Static} static_eqb {Data Out}
  filter_eval_shape cache calls.

(* ================================================================== *)
(** ** The solve of the test scenario *)

(** Modelled from the spec: the operators, the tags, the solvers and the
    dispatcher [linear_solve] are not among the source files; only the
    test that calls them is.  What follows is the dense path the spec
    describes: the operator of a nested container of scalar blocks is
    the dense matrix of its blocks, the default solver of an untagged
    square operator is LU, and LU is the factorization with partial
    pivoting followed by the two substitutions. *)

(** Modelled from the spec: the structural tags of an operator, which
    are not among the source files. *)
Inductive tag : Type :=
| symmetric_tag
| lower_triangular_tag
| upper_triangular_tag
| diagonal_tag
| tridiagonal_tag
| positive_semidefinite_tag
| negative_semidefinite_tag
| unit_diagonal_tag.

(** Modelled from the spec: equality of tags. *)
Definition tag_eqb (s t : tag) : bool :=
  match s, t with
  | symmetric_tag, symmetric_tag
  | lower_triangular_tag, lower_triangular_tag
  | upper_triangular_tag, upper_triangular_tag
  | diagonal_tag, diagonal_tag
  | tridiagonal_tag, tridiagonal_tag
  | positive_semidefinite_tag, positive_semidefinite_tag
  | negative_semidefinite_tag, negative_semidefinite_tag
  | unit_diagonal_tag, unit_diagonal_tag => true
  | _, _ => false
  end.

(** Modelled from the spec: membership of a tag in the tags of an
    operator. *)
Definition has_tag (t : tag) (tags : list tag) : bool :=
  existsb (tag_eqb t) tags.

(** Modelled from the spec: the solver family, not among the source
    files. *)
Inductive Solver : Type :=
| LU | QR | SVD | Cholesky | Diagonal | Triangular | Tridiagonal
| CG | NormalCG | GMRES.

(** Modelled from the spec: the status of a solve. *)
Inductive RESULTS : Type :=
| successful
| singular
| max_steps_reached
| breakdown.

(** Modelled from the spec: the result of a solve, its value and its
    status. *)
Record Solution : Type := {
  value : list float;
  result_of : RESULTS
}.

(** Modelled from the spec: an operator in dense form, rows first, with
    the sizes of its input and output structures and its tags. *)
Record LinearOperator : Type := {
  as_matrix : list (list float);
  in_size : nat;
  out_size : nat;
  tags : list tag
}.

(** Modelled from the spec: [PyTreeLinearOperator(blocks,
    output_structure, tags)] for scalar blocks, [blocks[i][j]] mapping
    input leaf [j] to output leaf [i]; the construction checks the
    blocks against each other and against the output structure. *)
Definition PyTreeLinearOperator (blocks : list (list float))
    (output_structure : nat) (tags : list tag) : result LinearOperator :=
  let n_in := match blocks with [] => O | r :: _ => length r end in
  if negb (Nat.eqb (length blocks) output_structure) then Raise StructureMismatch
  else if negb (forallb (fun r => Nat.eqb (length r) n_in) blocks)
  then Raise StructureMismatch
  else Ok {| as_matrix := blocks; in_size := n_in;
             out_size := output_structure; tags := tags |}.

(** Modelled from the spec: the default solver, from the tags and the
    shape. *)
Definition default_solver (operator : LinearOperator) : Solver :=
  let ts := tags operator in
  if has_tag symmetric_tag ts && has_tag positive_semidefinite_tag ts
  then Cholesky
  else if has_tag lower_triangular_tag ts || has_tag upper_triangular_tag ts
  then Triangular
  else if Nat.eqb (in_size operator) (out_size operator) then LU
  else QR.

Section LUSolve.
Variable fmt : format.

(** Modelled from the spec: the pivot search of LU, the index of the
    first entry of largest magnitude. *)
Fixpoint argmax_abs (best_i : nat) (best : float) (i : nat)
    (col : list float) : nat :=
  match col with
  | [] => best_i
  | c :: col' =>
      if fltb best (fabs c) then argmax_abs i (fabs c) (S i) col'
      else argmax_abs best_i best (S i) col'
  end.

(** Modelled from the spec: replacement of the element at an index,
    for the row exchanges of LU. *)
Fixpoint set_nth {A : Type} (n : nat) (a : A) (l : list A) : list A :=
  match l, n with
  | [], _ => []
  | _ :: l', O => a :: l'
  | b :: l', S n' => b :: set_nth n' a l'
  end.

(** Modelled from the spec: the row exchange of LU, of the first
    element with the one at index [p]. *)
Definition swap0 {A : Type} (p : nat) (l : list A) : list A :=
  match l, p with
  | a0 :: r, S p' =>
      match nth_error r p' with
      | Some ap => ap :: set_nth p' a0 r
      | None => l
      end
  | _, _ => l
  end.

(** Modelled from the spec: one elimination step of LU, with the row
    exchanged into the pivot position,
    the pivot row of U from the diagonal on, and the multipliers of
    the rows below. *)
Record lu_step : Type := {
  piv : nat;
  urow : list float;
  mults : list float
}.

(** Modelled from the spec: the row update of LU, [r - l * u]
    elementwise. *)
Fixpoint axpy_neg (l : float) (u r : list float) : list float :=
  match u, r with
  | ui :: u', ri :: r' => fsub fmt ri (fmul fmt l ui) :: axpy_neg l u' r'
  | _, _ => []
  end.

(** Modelled from the spec: the leading entry of a row. *)
Definition leading (r : list float) : float :=
  match r with [] => pzero | c :: _ => c end.

(** Modelled from the spec: the factorization [P A = L U] of the LU
    solver, with partial pivoting, column by
    column, on the [n] remaining rows. *)
Fixpoint lu_factor (n : nat) (rows : list (list float)) : list lu_step :=
  match n with
  | O => []
  | S n' =>
      let p := argmax_abs O pzero O (map leading rows) in
      match swap0 p rows with
      | (a :: u) :: below =>
          let ls := map (fun r => fdiv fmt (leading r) a) below in
          let below' := map (fun r => axpy_neg (fdiv fmt (leading r) a) u (tl r)) below in
          {| piv := p; urow := a :: u; mults := ls |} :: lu_factor n' below'
      | _ => []
      end
  end.

(** Modelled from the spec: the forward substitution [L y = P b] of
    the LU solver. *)
Fixpoint lu_forward (steps : list lu_step) (b : list float) : list float :=
  match steps with
  | [] => []
  | st :: steps' =>
      match swap0 (piv st) b with
      | b0 :: bs =>
          b0 :: lu_forward steps'
                  (map (fun lb => fsub fmt (snd lb) (fmul fmt (fst lb) b0))
                       (combine (mults st) bs))
      | [] => []
      end
  end.

(** Modelled from the spec: the inner product of a row of U with the
    unknowns already solved. *)
Definition dot_total (u x : list float) : float :=
  fold_left (fun acc ux => fadd fmt acc (fmul fmt (fst ux) (snd ux)))
            (combine u x) pzero.

(** Modelled from the spec: the back substitution [U x = y] of the LU
    solver. *)
Fixpoint lu_backward (steps : list lu_step) (y : list float) : list float :=
  match steps, y with
  | st :: steps', yk :: y' =>
      let x' := lu_backward steps' y' in
      match urow st with
      | a :: u => fdiv fmt (fsub fmt yk (dot_total u x')) a :: x'
      | [] => []
      end
  | _, _ => []
  end.

(** Modelled from the spec: the singularity test of the LU solver, a
    zero pivot. *)
Definition lu_singular (steps : list lu_step) : bool :=
  existsb (fun st => feqb (leading (urow st)) pzero) steps.

(** Modelled from the spec: the LU solver, which reports a singular
    operator in the status and does not raise. *)
Definition lu_solve (operator : LinearOperator) (b : list float) : Solution :=
  let steps := lu_factor (out_size operator) (as_matrix operator) in
  let x := lu_backward steps (lu_forward steps b) in
  {| value := x;
     result_of := if lu_singular steps then singular else successful |}.

(** Modelled from the spec: the error a failed status is raised as. *)
Definition error_of (r : RESULTS) : exn :=
  match r with
  | singular => Singular
  | max_steps_reached => NonConvergence
  | _ => Breakdown
  end.

(** Modelled from the spec: the dispatcher.  A structure mismatch is
    raised at once; the solver is the given one or the default; a
    numerical failure is raised only when [throw] is set.  Of the
    solvers only LU is modelled. *)
Definition linear_solve (operator : LinearOperator) (b : list float)
    (solver : option Solver) (throw : bool) : result Solution :=
  if negb (Nat.eqb (out_size operator) (length b))
  then Raise StructureMismatch
  else
    let solver :=
      match solver with Some s => s | None => default_solver operator end in
    match solver with
    | LU =>
        if negb (Nat.eqb (in_size operator) (out_size operator))
        then Raise ValueError
        else
          let sol := lu_solve operator b in
          match result_of sol with
          | successful => Ok sol
          | r => if throw then Raise (error_of r) else Ok sol
          end
    | _ => Raise NotImplementedError
    end.
End LUSolve.

(* ================================================================== *)
(** ** Notions the properties are stated with *)

(** The sign bit is set and the value is a number. *)
Definition nonpos (x : float) : bool := nonneg (fneg x).

(** A real or complex element has a NaN component. *)
Definition real_isnan (x : float) : bool := isnan x.
Definition complex_isnan (x : complex) : bool := isnan (fst x) || isnan (snd x).

(** The real part of [x * conj(x)], in real operations only. *)
Definition abs2 (fmt : format) (x : complex) : float :=
  fsub fmt (fmul fmt (fst x) (fst x)) (fmul fmt (snd x) (fneg (snd x))).

(** The formats of the floating dtypes. *)
Definition float_formats : list format :=
  [bfloat16_format; binary16; binary32; binary64].

(** The inner product [vdot] asks of the backend for two arrays of the
    same size, the first one conjugated, at a precision. *)
Definition vdot_value (fmt : format) {A : Type} `{Scalar fmt A}
    (precision : Precision) (a b : Array A) : A :=
  dot_general (Some precision) (map s_conj a) b.

(** Two corresponding leaves have as many elements. *)
Definition same_size {A : Type} (ab : Array A * Array A) : Prop :=
  length (fst ab) = length (snd ab).


(** No element is NaN. *)
Definition no_nan (vs : list float) : bool :=
  forallb (fun v => negb (isnan v)) vs.

(** [r] is the maximum of [vs], as [jnp.max] has it: NaN when some
    element is NaN, and otherwise an element that no element exceeds. *)
Definition is_maximum (vs : list float) (r : float) : Prop :=
  (no_nan vs = true -> In r vs /\ Forall (fun v => fleb v r = true) vs)
  /\ (no_nan vs = false -> r = nan).

(** A magnitude: the result of [abs], non-negative or NaN. *)
Definition magnitude (v : float) : Prop := nonneg v || isnan v = true.

(** A backend that is exact on the numbers that are not subnormal:
    there its absolute value is the one of the format, and its maximum
    of two magnitudes, and of an array of magnitudes, is their maximum. *)
Definition exact_on_normals (fmt : format) (O : Order) : Prop :=
  (forall v, is_subnormal fmt v = false -> lax_abs v = fabs v)
  /\ (forall a b, magnitude a -> magnitude b ->
                  is_subnormal fmt a = false -> is_subnormal fmt b = false ->
                  is_maximum [a; b] (lax_max a b))
  /\ (forall a l, Forall magnitude (a :: l) ->
                  Forall (fun v => is_subnormal fmt v = false) (a :: l) ->
                  is_maximum (a :: l) (reduce_max a l)).

(** Induction on a container, with the hypothesis on every child. *)
Fixpoint PyTree_rect' {A : Type} (P : PyTree A -> Prop)
    (HLeaf : forall a, P (Leaf a))
    (HNode : forall k ts, Forall P ts -> P (Node k ts))
    (t : PyTree A) {struct t} : P t :=
  match t with
  | Leaf a => HLeaf a
  | Node k ts =>
      HNode k ts
        ((fix go (ts : list (PyTree A)) : Forall P ts :=
            match ts with
            | [] => Forall_nil P
            | t' :: ts' =>
                Forall_cons t' (PyTree_rect' P HLeaf HNode t') (go ts')
            end) ts)
  end.

(** The children of a node, rebuilt one after the other from a list of
    leaves: the loop inside [unflatten_from]. *)
Fixpoint unflatten_children {A : Type} (ds : list PyTreeDef) (leaves : list A)
  : option (list (PyTree A) * list A) :=
  match ds with
  | [] => Some ([], leaves)
  | d' :: ds' =>
      match unflatten_from d' leaves with
      | Some (t, rest) =>
          match unflatten_children ds' rest with
          | Some (ts, rest') => Some (t :: ts, rest')
          | None => None
          end
      | None => None
      end
  end.

(** Every entry of a cache has a key the wrapper was called with, and
    holds the value of the function at that key. *)
Definition cache_ok {K V : Type} (called : K -> Prop) (f : K -> result V)
    (c : lru K V) : Prop :=
  Forall (fun kv => called (fst kv) /\ f (fst kv) = Ok (snd kv)) c.

(** The uncached call: shape inference on the arguments themselves. *)
Definition direct_eval_shape {L Out : Type}
    (filter_eval_shape : PyTree L -> PyTree L -> PyTree L -> result Out)
    (call : PyTree L * PyTree L * PyTree L) : result Out :=
  let '(fn, args, kwargs) := call in filter_eval_shape fn args kwargs.

(** The call with every array replaced by its shape and dtype. *)
Definition to_structs {Static Data : Type}
    (call : PyTree (leaf Static Data) * PyTree (leaf Static Data)
            * PyTree (leaf Static Data))
  : PyTree (leaf Static Data) * PyTree (leaf Static Data)
    * PyTree (leaf Static Data) :=
  let '(fn, args, kwargs) := call in
  (tree_map _to_struct fn, tree_map _to_struct args,
   tree_map _to_struct kwargs).

(** The key of a call. *)
Definition signature_of {Static Data : Type}
    (call : PyTree (leaf Static Data) * PyTree (leaf Static Data)
            * PyTree (leaf Static Data)) : key Static Data :=
  let '(fn, args, kwargs) := call in signature fn args kwargs.

(** What a call of [cached_eval_shape] is to return: the [TypeError] of
    the cache when the key cannot be hashed, and otherwise the
    inference on the call with every array replaced by its shape and
    dtype. *)
Definition keyed_eval_shape {Static Data Out : Type}
    (filter_eval_shape :
       PyTree (leaf Static Data) -> PyTree (leaf Static Data) ->
       PyTree (leaf Static Data) -> result Out)
    (call : PyTree (leaf Static Data) * PyTree (leaf Static Data)
            * PyTree (leaf Static Data)) : result Out :=
  if key_hashable (signature_of call)
  then direct_eval_shape filter_eval_shape (to_structs call)
  else Raise TypeError.

(** The shapes and dtypes of the arrays among some leaves. *)
Definition shapes_of {Static Data : Type} (ls : list (leaf Static Data))
  : list (list nat * dtype) :=
  flat_map (fun l => match l with
                     | ArrayLeaf s d _ _ | ShapeDtypeStruct s d => [(s, d)]
                     | StaticLeaf _ | UnhashableLeaf _ => []
                     end) ls.

(** The shape inference of a function that returns all the arrays it is
    given: an instance of the host's inference. *)
Definition echo_eval_shape {Static Data : Type}
    (fn args kwargs : PyTree (leaf Static Data))
  : result (list (list nat * dtype)) :=
  Ok (shapes_of (tree_leaves fn ++ tree_leaves args ++ tree_leaves kwargs)).

(** The dtype two floating dtypes promote to; a weak one gives way to
    the other. *)
Definition promote_floating (d : dtype) (weak : bool) (d' : dtype)
    (weak' : bool) : dtype :=
  if weak && negb weak' then d'
  else if weak' && negb weak then d
  else if dtype_eqb d d' then d
  else match d, d' with
       | float64, _ | _, float64 => float64
       | _, _ => float32
       end.

(** What shape inference sees of a leaf that stands for an array: its
    shape, its dtype, and whether the dtype is weak. *)
Definition abstract_value {Static Data : Type} (x : leaf Static Data)
  : option (list nat * dtype * bool) :=
  match x with
  | ArrayLeaf s d w _ => Some (s, d, w)
  | ShapeDtypeStruct s d => Some (s, d, false)
  | _ => None
  end.

Definition is_floating (d : dtype) : bool :=
  match d with
  | bfloat16 | float16 | float32 | float64 => true
  | _ => false
  end.

(** The shape inference of the function that adds its two arguments,
    floating arrays of one shape: another instance of the host's
    inference. *)
Definition add_eval_shape {Static Data : Type}
    (fn args kwargs : PyTree (leaf Static Data))
  : result (list nat * dtype) :=
  match tree_leaves args with
  | [x; y] =>
      match abstract_value x, abstract_value y with
      | Some (s, d, w), Some (s', d', w') =>
          if list_eqb Nat.eqb s s' && is_floating d && is_floating d'
          then Ok (s, promote_floating d w d' w')
          else Raise TypeError
      | _, _ => Raise TypeError
      end
  | _ => Raise TypeError
  end.

(** The two differentiation modes, to observe which one [jacobian]
    selects. *)
Inductive ad_mode : Type := forward_mode | reverse_mode.

(** The system of the test [test_nontrivial_pytree_operator]. *)
Definition scenario_blocks (fmt : format) : list (list float) :=
  [[of_Z fmt 1; of_Z fmt 5]; [of_Z fmt (-2); of_Z fmt (-2)]].

Definition scenario_rhs (fmt : format) : list float :=
  [of_Z fmt 3; of_Z fmt 4].

(** [-3.25] and [1.25]. *)
Definition scenario_solution (fmt : format) : list float :=
  [of_Z2 fmt (-13) (-2); of_Z2 fmt 5 (-2)].

(** The scenario: the operator is built, then the system is solved with
    the default solver. *)
Definition scenario_solve (fmt : format) : result Solution :=
  operator <- PyTreeLinearOperator (scenario_blocks fmt) 2 [] ;;
  linear_solve fmt operator (scenario_rhs fmt) None true.

(** The matrix-vector product. *)
Definition matvec (fmt : format) (a : list (list float)) (x : list float)
  : list float :=
  map (fun row => dot_total fmt row x) a.

(* ================================================================== *)
(** ** [tree_where] *)

(** Induction on a structure, with the hypothesis on every child. *)
Fixpoint PyTreeDef_rect' (P : PyTreeDef -> Prop)
    (HLeaf : P DLeaf)
    (HNode : forall k ds, Forall P ds -> P (DNode k ds))
    (d : PyTreeDef) {struct d} : P d :=
  match d with
  | DLeaf => HLeaf
  | DNode k ds =>
      HNode k ds
        ((fix go (ds : list PyTreeDef) : Forall P ds :=
            match ds with
            | [] => Forall_nil P
            | d' :: ds' =>
                Forall_cons d' (PyTreeDef_rect' P HLeaf HNode d') (go ds')
            end) ds)
  end.

(** [treedef.flatten_up_to(tree)]: what stands in [tree] at every leaf
    of the structure; a [ValueError] unless [tree] has the structure as
    a prefix. *)
Fixpoint flatten_up_to {L : Type} (treedef : PyTreeDef) (tree : PyTree L)
  : result (list (PyTree L)) :=
  match treedef with
  | DLeaf => Ok [tree]
  | DNode k ds =>
      match tree with
      | Leaf _ => Raise ValueError
      | Node k' ts =>
          if negb (NodeKind_eqb k k') then Raise ValueError
          else
            (fix go (ds : list PyTreeDef) (ts : list (PyTree L))
               : result (list (PyTree L)) :=
               match ds, ts with
               | [], [] => Ok []
               | d' :: ds', t' :: ts' =>
                   xs <- flatten_up_to d' t' ;;
                   ys <- go ds' ts' ;;
                   Ok (xs ++ ys)
               | _, _ => Raise ValueError
               end) ds ts
      end
  end.

(** The loop of [flatten_up_to] over the children of a node. *)
Fixpoint flatten_children_up_to {L : Type} (ds : list PyTreeDef)
    (ts : list (PyTree L)) : result (list (PyTree L)) :=
  match ds, ts with
  | [], [] => Ok []
  | d' :: ds', t' :: ts' =>
      xs <- flatten_up_to d' t' ;;
      ys <- flatten_children_up_to ds' ts' ;;
      Ok (xs ++ ys)
  | _, _ => Raise ValueError
  end.

(** [jtu.tree_map(f, tree, rest)]: [f] on every leaf of [tree] and on
    what stands at its place in [rest], rebuilt in the structure of
    [tree]. *)
Definition tree_map2 {L C : Type} (f : L -> PyTree L -> result C)
    (tree rest : PyTree L) : result (PyTree C) :=
  let '(leaves, treedef) := tree_flatten tree in
  rest_leaves <- flatten_up_to treedef rest ;;
  outs <- comprehension (fun ab => f (fst ab) (snd ab))
                        (combine leaves rest_leaves) ;;
  tree_unflatten treedef outs.

Section TreeWhere.
(** The leaves, and the host's [jnp.where(pred, a, b)] on a leaf [a]
    of the first container and what stands at its place in the
    second. *)
Variable L : Type.
Variable jnp_where : bool -> L -> PyTree L -> result L.

Definition tree_where (pred : bool) (true_ false_ : PyTree L)
  : result (PyTree L) :=
  let keep := fun a b => jnp_where pred a b in
  tree_map2 keep true_ false_.
End TreeWhere.

Arguments tree_where {L} jnp_where pred true_ false_.

(** A [jnp.where] on arrays of one shape, given as lists of as many
    elements: the selected operand; anything else is refused. *)
Definition where_same_shape {A : Type} (pred : bool) (a : list A)
    (b : PyTree (list A)) : result (list A) :=
  match b with
  | Leaf b' =>
      if Nat.eqb (length a) (length b') then Ok (if pred then a else b')
      else Raise ValueError
  | Node _ _ => Raise TypeError
  end.

(** The number of leaves of a structure. *)
Fixpoint num_leaves (d : PyTreeDef) : nat :=
  match d with
  | DLeaf => 1
  | DNode _ ds => fold_right (fun d' n => (num_leaves d' + n)%nat) O ds
  end.

(** A zero of either sign. *)
Definition is_zero (x : float) : bool :=
  match x with S754_zero _ => true | _ => false end.

(* ================================================================== *)
(** * Properties *)

(* ================================================================== *)
(** ** Signs of rounded results *)

Section RoundingSigns.
Variables prec emax : Z.

Lemma shr_1_nonneg (mrs : shr_record) :
  0 <= shr_m mrs -> 0 <= shr_m (shr_1 mrs).
Proof.
  destruct mrs as [m r s]; simpl.
  destruct m as [|p|p]; [simpl; lia| |lia].
  destruct p; simpl; lia.
Qed.

Lemma iter_shr_1_nonneg (p : positive) :
  forall mrs, 0 <= shr_m mrs -> 0 <= shr_m (iter_pos shr_1 p mrs).
Proof.
  induction p as [p IH|p IH|]; intros mrs Hm; simpl.
  - apply IH, IH, shr_1_nonneg, Hm.
  - apply IH, IH, Hm.
  - apply shr_1_nonneg, Hm.
Qed.

Lemma shr_nonneg (mrs : shr_record) (e n : Z) :
  0 <= shr_m mrs -> 0 <= shr_m (fst (shr mrs e n)).
Proof.
  intros Hm. destruct n; simpl; auto using iter_shr_1_nonneg.
Qed.

Lemma shr_record_of_loc_m (m : Z) (l : location) :
  shr_m (shr_record_of_loc m l) = m.
Proof. destruct l as [|[]]; reflexivity. Qed.

Lemma shr_fexp_nonneg (m e : Z) (l : location) :
  0 <= m -> 0 <= shr_m (fst (shr_fexp prec emax m e l)).
Proof.
  intros Hm. unfold shr_fexp. apply shr_nonneg.
  now rewrite shr_record_of_loc_m.
Qed.

Lemma round_nearest_even_nonneg (m : Z) (l : location) :
  0 <= m -> 0 <= round_nearest_even m l.
Proof.
  intros Hm. destruct l as [|[]]; simpl; try lia.
  destruct (Z.even m); lia.
Qed.

(** Rounding a non-negative mantissa with a clear sign bit gives a
    non-negative number: it never gives NaN. *)
Lemma binary_round_aux_nonneg (m e : Z) (l : location) :
  0 <= m -> nonneg (binary_round_aux prec emax false m e l) = true.
Proof.
  intros Hm. unfold binary_round_aux.
  pose proof (shr_fexp_nonneg m e l Hm) as H1.
  destruct (shr_fexp prec emax m e l) as [mrs' e'] eqn:E1. simpl in H1.
  pose proof (shr_fexp_nonneg
                (round_nearest_even (shr_m mrs') (loc_of_shr_record mrs'))
                e' loc_Exact (round_nearest_even_nonneg _ _ H1)) as H2.
  destruct (shr_fexp prec emax _ e' loc_Exact) as [mrs'' e''] eqn:E2.
  simpl in H2.
  destruct (shr_m mrs'') as [|p|p]; [reflexivity| |lia].
  destruct (e'' <=? emax - prec); reflexivity.
Qed.

Lemma binary_round_nonneg (m : positive) (e : Z) :
  nonneg (binary_round prec emax false m e) = true.
Proof.
  unfold binary_round.
  destruct (shl_align m e _) as [mz ez].
  apply binary_round_aux_nonneg. lia.
Qed.

Lemma binary_normalize_nonneg (m e : Z) :
  0 <= m -> nonneg (binary_normalize prec emax m e false) = true.
Proof.
  intros Hm. destruct m as [|p|p]; simpl; [reflexivity| |lia].
  apply binary_round_nonneg.
Qed.
End RoundingSigns.

Section Signs.
Variable fmt : format.

(** A square is non-negative, unless it is NaN. *)
Lemma fmul_self_sign (x : float) :
  isnan x = false -> nonneg (fmul fmt x x) = true.
Proof.
  intros Hx. destruct x as [s|s| |s m e]; try discriminate; simpl.
  - now destruct s.
  - now destruct s.
  - unfold fmul; simpl. rewrite xorb_nilpotent.
    apply binary_round_aux_nonneg. lia.
Qed.

Lemma fmul_self_nan (x : float) :
  isnan x = true -> fmul fmt x x = nan.
Proof. destruct x; try discriminate; reflexivity. Qed.

Lemma fmul_neg_sign (x : float) :
  isnan x = false -> nonpos (fmul fmt x (fneg x)) = true.
Proof.
  intros Hx. destruct x as [s|s| |s m e]; try discriminate; simpl.
  - now destruct s.
  - now destruct s.
  - unfold fmul, nonpos; simpl.
    replace (xorb s (negb s)) with true by now destruct s.
    pose proof (binary_round_aux_nonneg (fprec fmt) (femax fmt)
                  (Zpos (m * m)) (e + e) loc_Exact ltac:(lia)) as H.
    unfold binary_round_aux in *.
    destruct (shr_fexp _ _ (Zpos (m * m)) (e + e) loc_Exact) as [mrs' e'].
    destruct (shr_fexp _ _ _ e' loc_Exact) as [mrs'' e''].
    destruct (shr_m mrs'') as [|p|p]; try reflexivity; try discriminate.
    destruct (e'' <=? femax fmt - fprec fmt); reflexivity.
Qed.

Lemma fadd_nonneg (x y : float) :
  nonneg x = true -> nonneg y = true -> nonneg (fadd fmt x y) = true.
Proof.
  destruct x as [[]|[]| |[] mx ex]; try discriminate;
    destruct y as [[]|[]| |[] my ey]; try discriminate;
    intros _ _; try reflexivity.
  unfold fadd, SFadd, cond_Zopp. apply binary_normalize_nonneg. lia.
Qed.

Lemma fsub_nonneg_nonpos (x y : float) :
  nonneg x = true -> nonpos y = true -> nonneg (fsub fmt x y) = true.
Proof.
  unfold nonpos.
  destruct x as [[]|[]| |[] mx ex]; try discriminate;
    destruct y as [[]|[]| |[] my ey]; try discriminate;
    intros _ _; try reflexivity.
  unfold fsub, SFsub, cond_Zopp. apply binary_normalize_nonneg. lia.
Qed.

Lemma fsqrt_nonneg (x : float) :
  nonneg x = true -> nonneg (fsqrt fmt x) = true.
Proof.
  destruct x as [[]|[]| |[] m e]; try discriminate; intros _; try reflexivity.
  unfold fsqrt; simpl.
  destruct (SFsqrt_core_binary _ _ (Zpos m) e) as [[mz ez] lz] eqn:E.
  apply binary_round_aux_nonneg.
  unfold SFsqrt_core_binary in E.
  match type of E with
  | (let (q, r) := Z.sqrtrem ?a in _) = _ =>
      pose proof (Z.sqrtrem_sqrt a) as Hs;
      pose proof (Z.sqrt_nonneg a) as Hn;
      destruct (Z.sqrtrem a) as [q r]
  end.
  simpl in Hs. inversion E; subst. exact Hn.
Qed.

Lemma jnp_sum_from_nonneg (l : list float) :
  forall acc, nonneg acc = true ->
  Forall (fun x => nonneg x = true) l ->
  nonneg (fold_left (fadd fmt) l acc) = true.
Proof.
  induction l as [|x l IH]; intros acc Ha Hl; simpl; [exact Ha|].
  inversion Hl; subst. apply IH; auto using fadd_nonneg.
Qed.

Lemma fadd_nan_r (x : float) : fadd fmt x nan = nan.
Proof. destruct x; reflexivity. Qed.

Lemma fold_fadd_nan (l : list float) : fold_left (fadd fmt) l nan = nan.
Proof. induction l as [|x l IH]; simpl; [reflexivity|exact IH]. Qed.

End Signs.

Lemma nonneg_not_lt_zero (x : float) :
  nonneg x || isnan x = true -> fltb x pzero = false.
Proof. destruct x as [[]|[]| |[] m e]; try discriminate; reflexivity. Qed.

Lemma nonneg_ge_zero (x : float) :
  nonneg x = true -> fleb pzero x = true.
Proof. destruct x as [[]|[]| |[] m e]; try discriminate; reflexivity. Qed.

(* ================================================================== *)
(** ** The two-norm *)

Section NormOfSquares.
Variable fmt : format.
Variable A : Type.
Variable sq : A -> float.
Variable elt_isnan : A -> bool.
Hypothesis sq_sign : forall a, elt_isnan a = false -> nonneg (sq a) = true.
Hypothesis sq_nan : forall a, elt_isnan a = true -> sq a = nan.

Lemma sum_of_squares_nonneg (v : list A) :
  forallb (fun a => negb (elt_isnan a)) v = true ->
  nonneg (jnp_sum fmt (map sq v)) = true.
Proof.
  intros Hv. apply jnp_sum_from_nonneg; [reflexivity|].
  apply Forall_forall. intros y Hy. apply in_map_iff in Hy.
  destruct Hy as [a [<- Ha]]. apply sq_sign.
  rewrite forallb_forall in Hv. specialize (Hv a Ha).
  now apply negb_true_iff in Hv.
Qed.

Lemma sum_of_squares_nan (v : list A) :
  forallb (fun a => negb (elt_isnan a)) v = false ->
  forall acc, fold_left (fadd fmt) (map sq v) acc = nan.
Proof.
  induction v as [|a v IH]; simpl; [discriminate|].
  intros Hv acc. apply andb_false_iff in Hv. destruct Hv as [Ha|Hv].
  - apply negb_false_iff in Ha. rewrite (sq_nan a Ha), fadd_nan_r.
    apply fold_fadd_nan.
  - now apply IH.
Qed.

Lemma norm_of_squares_sign (v : list A) :
  let r := fsqrt fmt (jnp_sum fmt (map sq v)) in
  fltb r pzero = false
  /\ (forallb (fun a => negb (elt_isnan a)) v = true ->
      nonneg r = true /\ fleb pzero r = true)
  /\ (forallb (fun a => negb (elt_isnan a)) v = false -> r = nan).
Proof.
  intros r. subst r.
  destruct (forallb (fun a => negb (elt_isnan a)) v) eqn:Hv.
  - pose proof (fsqrt_nonneg fmt _ (sum_of_squares_nonneg v Hv)) as Hr.
    split; [|split]; [| |discriminate].
    + apply nonneg_not_lt_zero. now rewrite Hr.
    + intros _. split; [exact Hr|now apply nonneg_ge_zero].
  - unfold jnp_sum. cbn [reduce_sum ieee_backend].
    rewrite (sum_of_squares_nan v Hv).
    split; [reflexivity|split]; [discriminate|reflexivity].
Qed.
End NormOfSquares.

(** The same on every backend, from the laws of its reduction and of
    its square root: a sum of non-negative numbers is non-negative, in
    whatever order it is taken; a sum with a NaN term is NaN; the square
    root of a non-negative number is non-negative, and the one of NaN is
    NaN. *)
Section NormOfBackend.
Variable fmt : format.
Context {B : Backend fmt}.
Variable A : Type.
Variable sq : A -> float.
Variable elt_isnan : A -> bool.
Hypothesis sq_sign : forall a, elt_isnan a = false -> nonneg (sq a) = true.
Hypothesis sq_nan : forall a, elt_isnan a = true -> sq a = nan.
Hypothesis sum_sign :
  forall l, Forall (fun v => nonneg v = true) l -> nonneg (reduce_sum l) = true.
Hypothesis sum_nan : forall l, In nan l -> reduce_sum l = nan.
Hypothesis sqrt_sign : forall v, nonneg v = true -> nonneg (lax_sqrt v) = true.
Hypothesis sqrt_nan : lax_sqrt nan = nan.

Lemma norm_sign_of_backend (v : list A) :
  let r := lax_sqrt (reduce_sum (map sq v)) in
  fltb r pzero = false
  /\ (forallb (fun a => negb (elt_isnan a)) v = true ->
      nonneg r = true /\ fleb pzero r = true)
  /\ (forallb (fun a => negb (elt_isnan a)) v = false -> r = nan).
Proof.
  intros r. subst r.
  destruct (forallb (fun a => negb (elt_isnan a)) v) eqn:Hv.
  - assert (nonneg (lax_sqrt (reduce_sum (map sq v))) = true) as Hr.
    { apply sqrt_sign, sum_sign, Forall_forall. intros y Hy.
      apply in_map_iff in Hy. destruct Hy as [a [<- Ha]]. apply sq_sign.
      rewrite forallb_forall in Hv. specialize (Hv a Ha).
      now apply negb_true_iff in Hv. }
    split; [|split]; [| |discriminate].
    + apply nonneg_not_lt_zero. now rewrite Hr.
    + intros _. split; [exact Hr|now apply nonneg_ge_zero].
  - assert (In nan (map sq v)) as Hin.
    { clear - Hv sq_nan. induction v as [|a v IH]; [discriminate|].
      simpl in Hv. apply andb_false_iff in Hv. destruct Hv as [Ha|Hv].
      - apply negb_false_iff in Ha. left. now apply sq_nan.
      - right. now apply IH. }
    rewrite (sum_nan _ Hin), sqrt_nan.
    split; [reflexivity|split]; [discriminate|reflexivity].
Qed.
End NormOfBackend.

(** The reference backend has these laws. *)
Lemma ieee_backend_laws (fmt : format) :
  (forall l, Forall (fun v => nonneg v = true) l ->
             nonneg (reduce_sum (Backend := ieee_backend fmt) l) = true)
  /\ (forall l, In nan l -> reduce_sum (Backend := ieee_backend fmt) l = nan)
  /\ (forall v, nonneg v = true ->
                nonneg (lax_sqrt (Backend := ieee_backend fmt) v) = true)
  /\ lax_sqrt (Backend := ieee_backend fmt) nan = nan.
Proof.
  cbn [reduce_sum lax_sqrt ieee_backend]. repeat split.
  - intros l Hl. now apply jnp_sum_from_nonneg.
  - intros l. generalize pzero.
    induction l as [|x l IH]; intros acc Hin; [destruct Hin|].
    destruct Hin as [->|Hin]; simpl.
    + rewrite fadd_nan_r. apply fold_fadd_nan.
    + now apply IH.
  - apply fsqrt_nonneg.
Qed.

Lemma complex_square_sign (fmt : format) (x : complex) :
  complex_isnan x = false -> nonneg (abs2 fmt x) = true.
Proof.
  destruct x as [a b]. unfold complex_isnan, abs2. simpl. intros H.
  apply orb_false_iff in H. destruct H as [Ha Hb].
  apply fsub_nonneg_nonpos; [now apply fmul_self_sign|now apply fmul_neg_sign].
Qed.

Lemma fsub_nan_l (fmt : format) (y : float) : fsub fmt nan y = nan.
Proof. reflexivity. Qed.

Lemma fsub_nan_r (fmt : format) (x : float) : fsub fmt x nan = nan.
Proof. destruct x; reflexivity. Qed.

Lemma fmul_nan_l (fmt : format) (y : float) : fmul fmt nan y = nan.
Proof. reflexivity. Qed.

Lemma complex_square_nan (fmt : format) (x : complex) :
  complex_isnan x = true -> abs2 fmt x = nan.
Proof.
  destruct x as [a b]. unfold complex_isnan, abs2. simpl. intros H.
  apply orb_true_iff in H. destruct H as [H|H].
  - destruct a; try discriminate. now rewrite fmul_nan_l, fsub_nan_l.
  - destruct b; try discriminate. now rewrite fmul_nan_l, fsub_nan_r.
Qed.

Lemma two_norm_nonempty (fmt : format) (A : Type) (S : Scalar fmt A)
    (x : PyTree (Array A)) :
  ravel_pytree x <> [] ->
  two_norm_run fmt x = (_two_norm fmt (ravel_pytree x), [Call_two_norm]).
Proof.
  intros Hx. unfold two_norm_run.
  destruct (ravel_pytree x); [congruence|reflexivity].
Qed.

Lemma two_norm_real_formula (fmt : format) (v : Array float) :
  _two_norm fmt v = fsqrt fmt (jnp_sum fmt (map (fun x => fmul fmt x x) v)).
Proof. reflexivity. Qed.

Lemma two_norm_complex_formula (fmt : format) (v : Array complex) :
  _two_norm fmt v = fsqrt fmt (jnp_sum fmt (map (abs2 fmt) v)).
Proof.
  unfold _two_norm.
  change (jnp_sqrt fmt) with (fsqrt fmt). f_equal. f_equal. apply map_ext.
  intros [a b]. reflexivity.
Qed.

(** On every backend whose reduction and square root have the laws of
    [norm_sign_of_backend], the norm of a non-empty container of complex
    or of real leaves is never negative, and it is NaN exactly when some
    element has a NaN component. *)
Lemma two_norm_sign_of_backend (fmt : format) (B : Backend fmt) :
  (forall l, Forall (fun v => nonneg v = true) l ->
             nonneg (reduce_sum l) = true) ->
  (forall l, In nan l -> reduce_sum l = nan) ->
  (forall v, nonneg v = true -> nonneg (lax_sqrt v) = true) ->
  lax_sqrt nan = nan ->
  (forall x : PyTree (Array complex),
      ravel_pytree x <> [] ->
      let r := two_norm (B := B) fmt x in
      fltb r pzero = false
      /\ (forallb (fun a => negb (complex_isnan a)) (ravel_pytree x) = true ->
          nonneg r = true /\ fleb pzero r = true)
      /\ (forallb (fun a => negb (complex_isnan a)) (ravel_pytree x) = false ->
          r = nan))
  /\ (forall x : PyTree (Array float),
      ravel_pytree x <> [] ->
      let r := two_norm (B := B) fmt x in
      fltb r pzero = false
      /\ (forallb (fun a => negb (real_isnan a)) (ravel_pytree x) = true ->
          nonneg r = true /\ fleb pzero r = true)
      /\ (forallb (fun a => negb (real_isnan a)) (ravel_pytree x) = false ->
          r = nan)).
Proof.
  intros Hsum Hnan Hsqrt Hsqrtnan.
  split; intros x Hx r; subst r; unfold two_norm, two_norm_run;
    destruct (ravel_pytree x) as [|x0 v]; [congruence| |congruence|];
    cbn [length Nat.eqb fst]; unfold _two_norm, jnp_sqrt, jnp_sum.
  - replace (map _ (x0 :: v)) with (map (abs2 fmt) (x0 :: v))
      by (apply map_ext; now intros [a b]).
    apply (norm_sign_of_backend fmt complex (abs2 fmt) complex_isnan
             (complex_square_sign fmt) (complex_square_nan fmt)
             Hsum Hnan Hsqrt Hsqrtnan).
  - apply (norm_sign_of_backend fmt float (fun a => fmul fmt a a) real_isnan
             (fmul_self_sign fmt) (fmul_self_nan fmt)
             Hsum Hnan Hsqrt Hsqrtnan).
Qed.

(** On every backend, [two_norm] ravels the container and hands the
    vector to [_two_norm], unless the vector is empty. *)
Lemma two_norm_run_of_backend (fmt : format) (A : Type) (S : Scalar fmt A)
    (B : Backend fmt) (x : PyTree (Array A)) :
  (length (ravel_pytree x) = 0%nat ->
   two_norm_run (B := B) fmt x = (pzero, []))
  /\ (length (ravel_pytree x) <> 0%nat ->
      two_norm_run (B := B) fmt x =
      (lax_sqrt (Backend := B)
         (reduce_sum
            (map (fun xi => s_real (s_mul xi (s_conj xi)))
                 (concat (tree_leaves x)))),
       [Call_two_norm])).
Proof.
  unfold two_norm_run, _two_norm, ravel_pytree. split; intros Hx.
  - now rewrite Hx.
  - apply Nat.eqb_neq in Hx. now rewrite Hx.
Qed.

(** C5: [two_norm] ravels the container into one vector and returns the
    square root of the sum of the squared magnitudes of its elements;
    when the ravelled vector has size 0 it returns exactly [+0] and makes
    no call to [_two_norm], the function that carries the custom
    derivative rule. *)
Theorem two_norm_flattens (fmt : format) (A : Type) (S : Scalar fmt A)
    (x : PyTree (Array A)) :
  (length (ravel_pytree x) = 0%nat -> two_norm_run fmt x = (pzero, []))
  /\ (length (ravel_pytree x) <> 0%nat ->
      two_norm_run fmt x =
      (fsqrt fmt
         (jnp_sum fmt
            (map (fun xi => s_real (s_mul xi (s_conj xi)))
                 (concat (tree_leaves x)))),
       [Call_two_norm])).
Proof. exact (two_norm_run_of_backend fmt A S (ieee_backend fmt) x). Qed.

Lemma two_norm_flattens_witness :
  two_norm_run binary64
    (Node PyList [Leaf ([] : Array float); Node PyNone []]) = (pzero, [])
  /\ two_norm_run binary64
       (Node PyList [Leaf [of_Z binary64 3]; Node PyTuple [Leaf [of_Z binary64 4]]])
     = (of_Z binary64 5, [Call_two_norm]).
Proof.
  split.
  - apply (proj1 (two_norm_flattens binary64 float (real_scalar binary64)
                    (Node PyList [Leaf []; Node PyNone []]))).
    reflexivity.
  - exact (proj2 (two_norm_flattens binary64 float (real_scalar binary64)
                    (Node PyList [Leaf [of_Z binary64 3];
                                  Node PyTuple [Leaf [of_Z binary64 4]]]))
                 (fun H : 2%nat = 0%nat => O_S 1 (eq_sym H))).
Defined.

(** C9, as stated, fails on a NaN element: the norm is then NaN, and NaN
    is not greater than or equal to zero. *)
Lemma two_norm_nan_not_nonnegative :
  ~ (forall (fmt : format) (x : PyTree (Array complex)),
        ravel_pytree x <> [] -> fleb pzero (two_norm fmt x) = true).
Proof.
  intros H.
  specialize (H binary32 (Leaf [(nan, pzero)])
                ltac:(discriminate)).
  discriminate H.
Qed.

(** C9, amended: for every non-empty container of complex or of real
    leaves, [two_norm] is a real number computed from the real part of
    [x * conj(x)] in real operations only; it is never negative; when no
    element has a NaN component it is non-negative ([0 <= r], possibly
    [+inf]); when some element has a NaN component it is NaN. *)
Theorem two_norm_real_nonnegative (fmt : format) :
  (forall x : PyTree (Array complex),
      ravel_pytree x <> [] ->
      let r := two_norm fmt x in
      r = fsqrt fmt (jnp_sum fmt (map (abs2 fmt) (ravel_pytree x)))
      /\ fltb r pzero = false
      /\ (forallb (fun a => negb (complex_isnan a)) (ravel_pytree x) = true ->
          nonneg r = true /\ fleb pzero r = true)
      /\ (forallb (fun a => negb (complex_isnan a)) (ravel_pytree x) = false ->
          r = nan))
  /\ (forall x : PyTree (Array float),
      ravel_pytree x <> [] ->
      let r := two_norm fmt x in
      r = fsqrt fmt (jnp_sum fmt (map (fun a => fmul fmt a a) (ravel_pytree x)))
      /\ fltb r pzero = false
      /\ (forallb (fun a => negb (real_isnan a)) (ravel_pytree x) = true ->
          nonneg r = true /\ fleb pzero r = true)
      /\ (forallb (fun a => negb (real_isnan a)) (ravel_pytree x) = false ->
          r = nan)).
Proof.
  split; intros x Hx r; subst r; unfold two_norm;
    rewrite (two_norm_nonempty fmt _ _ x Hx); cbn [fst].
  - rewrite two_norm_complex_formula. split; [reflexivity|].
    apply (norm_of_squares_sign fmt complex (abs2 fmt) complex_isnan
             (complex_square_sign fmt) (complex_square_nan fmt)).
  - rewrite two_norm_real_formula. split; [reflexivity|].
    apply (norm_of_squares_sign fmt float (fun a => fmul fmt a a) real_isnan
             (fmul_self_sign fmt) (fmul_self_nan fmt)).
Qed.

Lemma two_norm_real_nonnegative_witness :
  fleb pzero
    (two_norm binary64
       (Node PyList [Leaf [(of_Z binary64 3, of_Z binary64 4)];
                     Leaf [(pinf, of_Z binary64 (-1))]])) = true
  /\ two_norm binary64 (Leaf [of_Z binary64 1; nan]) = nan.
Proof.
  split.
  - refine (proj2 (proj1 (proj2 (proj2
      (proj1 (two_norm_real_nonnegative binary64)
         (Node PyList [Leaf [(of_Z binary64 3, of_Z binary64 4)];
                       Leaf [(pinf, of_Z binary64 (-1))]]) _))) _)).
    + discriminate.
    + reflexivity.
  - refine (proj2 (proj2 (proj2
      (proj2 (two_norm_real_nonnegative binary64)
         (Leaf [of_Z binary64 1; nan]) _))) _).
    + discriminate.
    + reflexivity.
Defined.

(* ================================================================== *)
(** ** The derivative rule of the two-norm *)

Lemma zero_over_one (fmt : format) :
  In fmt float_formats -> fdiv fmt pzero (fone fmt) = pzero.
Proof.
  intros H. repeat (destruct H as [<-|H]; [reflexivity|]). destruct H.
Qed.

Lemma jnp_dot_same_length (fmt : format) (A : Type) (S : Scalar fmt A)
    (x y : Array A) :
  length y = length x -> jnp_dot fmt x y = Ok (dot_general None x y).
Proof. intros H. unfold jnp_dot. now rewrite H, Nat.eqb_refl. Qed.

Lemma ieee_eq_zero (z : float) : is_zero z = true -> feqb z pzero = true.
Proof. destruct z as [[]| | |]; try discriminate; reflexivity. Qed.

(** C1: on every backend where [0 / 1] is the exact zero and a zero
    compares equal to [0], for every vector [x], real or complex, and
    every tangent [tx] of the same shape, the derivative rule returns the
    primal output, the value [two_norm] has at [x]: the square root of
    the sum of the real parts of [x * conj(x)]; and with it the tangent
    [dot(x, tx) / out], the contraction being the backend's, unconjugated;
    except when [out] is zero, or compares equal to zero on the backend,
    or is infinite, where the tangent is the exact zero, whatever [tx]
    holds. *)
Theorem two_norm_jvp_rule (fmt : format) (A : Type) (S : Scalar fmt A)
    (B : Backend fmt) (O : Order) (x tx : Array A) :
  s_div (s_of_Z 0) (fone fmt) = s_zero ->
  (forall z, is_zero z = true -> lax_eq z pzero = true) ->
  length tx = length x ->
  let out :=
    lax_sqrt (Backend := B)
      (reduce_sum (map (fun xi => s_real (s_mul xi (s_conj xi))) x)) in
  exists t_out,
    _two_norm_jvp fmt x tx = Ok (out, t_out)
    /\ (x <> [] -> two_norm fmt (Leaf x) = out)
    /\ (is_zero out = true \/ lax_eq out pzero = true \/ isinf out = true ->
        t_out = s_zero)
    /\ (lax_eq out pzero = false -> isinf out = false ->
        t_out = s_div (dot_general None x tx) out).
Proof.
  intros Hdiv Heq Hlen out.
  unfold _two_norm_jvp.
  rewrite (jnp_dot_same_length fmt A S x tx Hlen). cbn [bind].
  change (_two_norm fmt x) with out.
  eexists. split; [reflexivity|]. split; [|split].
  - intros Hx. unfold two_norm, two_norm_run, ravel_pytree.
    cbn [tree_leaves concat]. rewrite app_nil_r.
    destruct x as [|x0 x]; [congruence|reflexivity].
  - intros Hpred.
    assert (lax_eq out pzero || isinf out = true) as ->.
    { apply orb_true_iff. destruct Hpred as [Hz|[He|Hi]];
        [left; now apply Heq|now left|now right]. }
    unfold where_. exact Hdiv.
  - intros H0 Hinf. rewrite H0, Hinf. reflexivity.
Qed.

Lemma two_norm_jvp_rule_witness :
  _two_norm_jvp binary64 [of_Z binary64 3; of_Z binary64 4]
                [of_Z binary64 1; of_Z binary64 2]
  = Ok (of_Z binary64 5, fdiv binary64 (of_Z binary64 11) (of_Z binary64 5))
  /\ _two_norm_jvp binary32 [(pzero, fneg pzero)] [(nan, of_Z binary32 1)]
     = Ok (pzero, (pzero, pzero)).
Proof.
  split.
  - pose proof (two_norm_jvp_rule binary64 float (real_scalar binary64)
                  (ieee_backend binary64) ieee_order
                  [of_Z binary64 3; of_Z binary64 4]
                  [of_Z binary64 1; of_Z binary64 2]
                  eq_refl ieee_eq_zero eq_refl) as H.
    cbv zeta in H. destruct H as [t [Hjvp [_ [_ Hn]]]].
    rewrite (Hn eq_refl eq_refl) in Hjvp. exact Hjvp.
  - pose proof (two_norm_jvp_rule binary32 complex (complex_scalar binary32)
                  (ieee_backend binary32) ieee_order
                  [(pzero, fneg pzero)] [(nan, of_Z binary32 1)]
                  eq_refl ieee_eq_zero eq_refl) as H.
    cbv zeta in H. destruct H as [t [Hjvp [_ [Hz _]]]].
    rewrite (Hz (or_introl eq_refl)) in Hjvp. exact Hjvp.
Defined.

(* ================================================================== *)
(** ** The rank tolerance *)





(* ================================================================== *)
(** ** The coercion to an inexact dtype *)

(** C7, as stated, fails on a Python [int] beyond the default integer
    dtype: without 64-bit mode [2^40] does not fit [int32], and the
    coercion raises. *)
Lemma inexact_asarray_overflow :
  ~ (forall (x64 : bool) (x : ArrayLike Z),
        exists r,
          inexact_asarray (fun _ _ => 0) (fun _ z => z) x64 x = Ok r).
Proof.
  intros Hclaim. destruct (Hclaim false (Py (py_int (2 ^ 40)))) as [r H].
  discriminate H.
Qed.

(** C7, amended: for every input that is not a Python [int] beyond the
    default integer dtype ([int64] in 64-bit mode, [int32] without),
    [inexact_asarray] returns an array of a floating or complex dtype:
    the result type of the input when that is already floating or
    complex, and otherwise the default floating dtype, [float64] in
    64-bit mode and [float32] without; its elements are the host's
    conversion of the input to that dtype.  For a Python [int] beyond
    the default integer dtype it raises [OverflowError].  The derivative
    rule of the conversion returns the conversion of the primal
    together with the same conversion of the tangent. *)
Theorem inexact_asarray_dtype (Data : Type)
    (np_asarray : dtype -> pyscalar -> Data)
    (convert_element_type : dtype -> Data -> Data)
    (x64 : bool) (x : ArrayLike Data) :
  let dt :=
    if issubdtype_inexact (result_type x64 x) then result_type x64 x
    else if x64 then float64 else float32 in
  issubdtype_inexact dt = true
  /\ (fits_default_int x64 x = true ->
      inexact_asarray np_asarray convert_element_type x64 x
      = Ok (NDArray dt
              match x with
              | Py v => np_asarray dt v
              | Arr a => convert_element_type dt (arr_data a)
              end))
  /\ (fits_default_int x64 x = false ->
      inexact_asarray np_asarray convert_element_type x64 x
      = Raise OverflowError)
  /\ (forall (dt' : dtype) (a ta : ndarray Data),
         _asarray_jvp np_asarray convert_element_type x64 dt'
                      (Arr a) (Arr ta)
         = Ok (NDArray dt' (convert_element_type dt' (arr_data a)),
               NDArray dt' (convert_element_type dt' (arr_data ta)))).
Proof.
  intros dt. unfold inexact_asarray, _asarray.
  split; [|split; [|split]].
  - subst dt. destruct (issubdtype_inexact (result_type x64 x)) eqn:E;
      [exact E|now destruct x64].
  - intros Hfit. rewrite Hfit. cbn [negb]. subst dt.
    destruct (issubdtype_inexact (result_type x64 x)); cbn [negb];
      now destruct x.
  - intros Hfit. now rewrite Hfit.
  - intros dt' a ta. reflexivity.
Qed.

Lemma inexact_asarray_dtype_witness :
  inexact_asarray (fun _ _ => 0) (fun _ (z : Z) => z + 1) false
                  (Arr (NDArray complex128 7))
  = Ok (NDArray complex64 8)
  /\ inexact_asarray (fun d v => match v with py_int z => z | _ => 0 end)
                     (fun _ (z : Z) => z) true (Py (py_int (2 ^ 40)))
     = Ok (NDArray float64 (2 ^ 40))
  /\ inexact_asarray (fun d v => match v with py_int z => z | _ => 0 end)
                     (fun _ (z : Z) => z) false (Py (py_int (2 ^ 40)))
     = Raise OverflowError.
Proof.
  split; [|split].
  - exact (proj1 (proj2 (inexact_asarray_dtype Z (fun _ _ => 0)
                           (fun _ z => z + 1) false
                           (Arr (NDArray complex128 7)))) eq_refl).
  - exact (proj1 (proj2 (inexact_asarray_dtype Z
                           (fun d v => match v with py_int z => z | _ => 0 end)
                           (fun _ z => z) true (Py (py_int (2 ^ 40)))))
                 eq_refl).
  - exact (proj1 (proj2 (proj2 (inexact_asarray_dtype Z
                           (fun d v => match v with py_int z => z | _ => 0 end)
                           (fun _ z => z) false (Py (py_int (2 ^ 40))))))
                 eq_refl).
Defined.

(* ================================================================== *)
(** ** The inner product of two containers *)

Section TreeDotProperties.
Variable fmt : format.
Context {A : Type} `{Scalar fmt A}.

Lemma jnp_vdot_same_size (a b : Array A) (p : Precision) :
  length a = length b ->
  jnp_vdot fmt a b p = Ok (vdot_value fmt p a b).
Proof. intros Hlen. unfold jnp_vdot. now rewrite Hlen, Nat.eqb_refl. Qed.

Lemma jnp_vdot_other_size (a b : Array A) (p : Precision) :
  length a <> length b -> jnp_vdot fmt a b p = Raise TypeError.
Proof.
  intros Hlen. unfold jnp_vdot.
  destruct (Nat.eqb_spec (length a) (length b)); congruence.
Qed.

Lemma sum_vdots_same_size (ab : list (Array A * Array A)) :
  forall acc,
    Forall same_size ab ->
    sum_vdots fmt acc ab
    = Ok (fold_left (py_add fmt)
            (map (fun p => vdot_value fmt HIGHEST (fst p) (snd p)) ab) acc).
Proof.
  induction ab as [|[ai bi] ab IH]; intros acc Hall; [reflexivity|].
  inversion Hall as [|? ? Hab Hall']; subst.
  cbn [sum_vdots map fold_left fst snd].
  rewrite (jnp_vdot_same_size ai bi HIGHEST Hab). cbn [bind].
  now apply IH.
Qed.

Lemma sum_vdots_other_size (ab : list (Array A * Array A)) :
  forall acc,
    Exists (fun p => ~ same_size p) ab ->
    sum_vdots fmt acc ab = Raise TypeError.
Proof.
  induction ab as [|[ai bi] ab IH]; intros acc Hex; cbn [sum_vdots].
  - inversion Hex.
  - destruct (Nat.eq_dec (length ai) (length bi)) as [Heq|Hne].
    + rewrite (jnp_vdot_same_size ai bi HIGHEST Heq). cbn [bind].
      apply IH. inversion Hex as [? ? Hbad|]; subst; [|assumption].
      now elim Hbad.
    + now rewrite (jnp_vdot_other_size ai bi HIGHEST Hne).
Qed.
End TreeDotProperties.

(** C6, as stated, fails when two corresponding leaves differ in size:
    the leaf counts agree and the inner product of the leaves raises. *)
Lemma tree_dot_leaf_size_mismatch :
  ~ (forall a b : PyTree (Array float),
        length (tree_leaves a) = length (tree_leaves b) ->
        exists v, tree_dot binary32 a b = Ok v).
Proof.
  intros Hclaim.
  destruct (Hclaim (Node PyList [Leaf [of_Z binary32 1; of_Z binary32 2]])
                   (Node PyList [Leaf [of_Z binary32 1]])
                   eq_refl) as [v Hv].
  discriminate Hv.
Qed.

(** C6, amended: on every backend, for real and for complex leaves,
    [tree_dot] fails, by its assertion, whenever the two containers
    differ in their number of leaves.  When the numbers agree and every
    two corresponding leaves have as many elements, it returns the sum,
    from Python's [0] and in leaf order, of the leaf-wise inner products
    [vdot], each one the contraction the backend computes at the
    precision [HIGHEST] from the conjugate of the first leaf and the
    second leaf.  When the numbers agree and two corresponding leaves
    differ in size, it fails with the shape error of the inner
    product. *)
Theorem tree_dot_cases (fmt : format) (A : Type) (S : Scalar fmt A)
    (a b : PyTree (Array A)) :
  (length (tree_leaves a) <> length (tree_leaves b) ->
   tree_dot fmt a b = Raise AssertionError)
  /\ (length (tree_leaves a) = length (tree_leaves b) ->
      Forall same_size (combine (tree_leaves a) (tree_leaves b)) ->
      tree_dot fmt a b
      = Ok (fold_left (py_add fmt)
              (map (fun p =>
                      dot_general (Some HIGHEST) (map s_conj (fst p)) (snd p))
                   (combine (tree_leaves a) (tree_leaves b)))
              (PyInt 0)))
  /\ (length (tree_leaves a) = length (tree_leaves b) ->
      Exists (fun p => ~ same_size p)
             (combine (tree_leaves a) (tree_leaves b)) ->
      tree_dot fmt a b = Raise TypeError).
Proof.
  unfold tree_dot. split; [|split].
  - intros Hne. apply Nat.eqb_neq in Hne. now rewrite Hne.
  - intros Heq Hall. rewrite Heq, Nat.eqb_refl. cbn [negb].
    now apply sum_vdots_same_size.
  - intros Heq Hex. rewrite Heq, Nat.eqb_refl. cbn [negb].
    now apply sum_vdots_other_size.
Qed.

Lemma tree_dot_cases_witness :
  tree_dot binary32
    (Node PyList [Leaf [of_Z binary32 1; of_Z binary32 2]; Leaf [of_Z binary32 3]])
    (Node PyTuple [Leaf [of_Z binary32 4; of_Z binary32 5]; Leaf [of_Z binary32 6]])
  = Ok (PyArr (of_Z binary32 32))
  /\ tree_dot binary32
       (Node PyList [Leaf [of_Z binary32 1]])
       (Node PyList [Leaf [of_Z binary32 1]; Leaf [of_Z binary32 2]])
     = Raise AssertionError
  /\ tree_dot binary32
       (Node PyList [Leaf [(of_Z binary32 1, of_Z binary32 1)]])
       (Node PyList [Leaf [(of_Z binary32 1, of_Z binary32 1);
                           (pzero, pzero)]])
     = Raise TypeError.
Proof.
  split; [|split].
  - refine (proj1 (proj2 (tree_dot_cases binary32 float
                            (real_scalar binary32)
      (Node PyList [Leaf [of_Z binary32 1; of_Z binary32 2]; Leaf [of_Z binary32 3]])
      (Node PyTuple [Leaf [of_Z binary32 4; of_Z binary32 5]; Leaf [of_Z binary32 6]])))
      eq_refl _).
    repeat constructor.
  - refine (proj1 (tree_dot_cases binary32 float (real_scalar binary32)
      (Node PyList [Leaf [of_Z binary32 1]])
      (Node PyList [Leaf [of_Z binary32 1]; Leaf [of_Z binary32 2]])) _).
    discriminate.
  - refine (proj2 (proj2 (tree_dot_cases binary32 complex
                            (complex_scalar binary32)
      (Node PyList [Leaf [(of_Z binary32 1, of_Z binary32 1)]])
      (Node PyList [Leaf [(of_Z binary32 1, of_Z binary32 1);
                          (pzero, pzero)]])))
      eq_refl _).
    left. discriminate.
Defined.

(* ================================================================== *)
(** ** The order of the magnitudes *)

Lemma fabs_magnitude (x : float) : magnitude (fabs x).
Proof. destruct x as [s|s| |s m e]; reflexivity. Qed.

Lemma magnitude_number (x : float) :
  magnitude x -> isnan x = false -> nonneg x = true.
Proof.
  unfold magnitude. intros H Hn. rewrite Hn, orb_false_r in H. exact H.
Qed.

Lemma fleb_refl (x : float) : nonneg x = true -> fleb x x = true.
Proof.
  destruct x as [[]|[]| |[] m e]; try discriminate; intros _; try reflexivity.
  unfold fleb, SFleb, SFcompare.
  now rewrite Z.compare_refl, Pos.compare_cont_refl.
Qed.

Lemma fltb_fleb (x y : float) : fltb x y = true -> fleb x y = true.
Proof.
  unfold fltb, fleb, SFltb, SFleb.
  destruct (SFcompare x y) as [[]|]; try discriminate; reflexivity.
Qed.

Lemma fleb_total (x y : float) :
  nonneg x = true -> nonneg y = true -> fltb x y = false -> fleb y x = true.
Proof.
  destruct x as [[]|[]| |[] mx ex]; try discriminate;
    destruct y as [[]|[]| |[] my ey]; try discriminate;
    intros _ _; try reflexivity; try discriminate.
  unfold fltb, fleb, SFltb, SFleb, SFcompare.
  rewrite (Z.compare_antisym ex ey).
  destruct (ex ?= ey) eqn:E; simpl; try reflexivity; try discriminate.
  change (Pos.compare_cont Eq my mx) with (Pos.compare my mx).
  change (Pos.compare_cont Eq mx my) with (Pos.compare mx my).
  rewrite (Pos.compare_antisym mx my).
  destruct (mx ?= my)%positive; simpl; try reflexivity; discriminate.
Qed.

Lemma fleb_trans (x y z : float) :
  nonneg x = true -> nonneg y = true -> nonneg z = true ->
  fleb x y = true -> fleb y z = true -> fleb x z = true.
Proof.
  destruct x as [[]|[]| |[] mx ex]; try discriminate;
    destruct y as [[]|[]| |[] my ey]; try discriminate;
    destruct z as [[]|[]| |[] mz ez]; try discriminate;
    intros _ _ _; try reflexivity; try discriminate.
  unfold fleb, SFleb, SFcompare.
  change (Pos.compare_cont Eq mx my) with (Pos.compare mx my).
  change (Pos.compare_cont Eq my mz) with (Pos.compare my mz).
  change (Pos.compare_cont Eq mx mz) with (Pos.compare mx mz).
  destruct (Z.compare_spec ex ey), (Z.compare_spec ey ez),
    (Z.compare_spec ex ez); try lia; try discriminate; try reflexivity.
  destruct (Pos.compare_spec mx my), (Pos.compare_spec my mz),
    (Pos.compare_spec mx mz); try lia; try discriminate; reflexivity.
Qed.

(* ================================================================== *)
(** ** The max-norm *)

Lemma ieee_maximum_either (a b : float) :
  ieee_maximum a b = a \/ ieee_maximum a b = b.
Proof.
  unfold ieee_maximum.
  destruct (isnan a); [now left|].
  destruct (isnan b); [now right|].
  destruct (fltb a b); [now right|now left].
Qed.

Lemma ieee_maximum_isnan (a b : float) :
  isnan (ieee_maximum a b) = isnan a || isnan b.
Proof.
  unfold ieee_maximum.
  destruct (isnan a) eqn:Ea; [now rewrite Ea|].
  destruct (isnan b) eqn:Eb; [now rewrite Eb|].
  destruct (fltb a b); [now rewrite Eb|now rewrite Ea].
Qed.

Lemma ieee_maximum_upper (a b : float) :
  nonneg a = true -> nonneg b = true ->
  fleb a (ieee_maximum a b) = true /\ fleb b (ieee_maximum a b) = true.
Proof.
  intros Ha Hb. unfold ieee_maximum.
  assert (isnan a = false) as -> by (now destruct a as [| | |]).
  assert (isnan b = false) as -> by (now destruct b as [| | |]).
  destruct (fltb a b) eqn:E.
  - split; [now apply fltb_fleb|now apply fleb_refl].
  - split; [now apply fleb_refl|now apply fleb_total].
Qed.

Lemma is_maximum_nonneg (vs : list float) (r : float) :
  Forall magnitude vs -> no_nan vs = true -> In r vs -> nonneg r = true.
Proof.
  intros Hm Hn Hr. rewrite Forall_forall in Hm.
  unfold no_nan in Hn. rewrite forallb_forall in Hn.
  apply magnitude_number; [now apply Hm|].
  apply negb_true_iff. now apply Hn.
Qed.

Lemma is_maximum_singleton (v : float) : magnitude v -> is_maximum [v] v.
Proof.
  intros Hv. split; cbn [no_nan forallb]; rewrite andb_true_r; intros Hn.
  - apply negb_true_iff in Hn. split; [now left|].
    constructor; [|constructor]. apply fleb_refl.
    now apply magnitude_number.
  - apply negb_false_iff in Hn. now destruct v.
Qed.

(** A maximum is NaN or one of the elements. *)
Lemma is_maximum_cases (vs : list float) (r : float) :
  is_maximum vs r -> r = nan \/ In r vs.
Proof.
  intros [Hnum Hnan]. destruct (no_nan vs) eqn:E.
  - right. now apply Hnum.
  - left. now apply Hnan.
Qed.

Lemma is_maximum_magnitude (vs : list float) (r : float) :
  Forall magnitude vs -> is_maximum vs r -> magnitude r.
Proof.
  intros Hm H. destruct (is_maximum_cases vs r H) as [->|Hin]; [reflexivity|].
  rewrite Forall_forall in Hm. now apply Hm.
Qed.

(** The maximum of two magnitudes, on the reference backend. *)
Lemma ieee_maximum_pair (a b : float) :
  magnitude a -> magnitude b -> is_maximum [a; b] (ieee_maximum a b).
Proof.
  intros Ha Hb. split; cbn [no_nan forallb]; rewrite andb_true_r; intros Hn.
  - apply andb_true_iff in Hn. destruct Hn as [Hna Hnb].
    apply negb_true_iff in Hna, Hnb.
    pose proof (magnitude_number a Ha Hna) as Hpa.
    pose proof (magnitude_number b Hb Hnb) as Hpb.
    destruct (ieee_maximum_upper a b Hpa Hpb) as [Hua Hub]. split.
    + destruct (ieee_maximum_either a b) as [-> | ->];
        [now left|now right; left].
    + repeat constructor; assumption.
  - assert (isnan (ieee_maximum a b) = true) as Hr.
    { rewrite ieee_maximum_isnan.
      destruct (isnan a), (isnan b); try reflexivity; discriminate. }
    now destruct (ieee_maximum a b).
Qed.

Lemma no_nan_concat (vss : list (list float)) :
  no_nan (concat vss) = forallb no_nan vss.
Proof.
  induction vss as [|vs vss IH]; simpl; [reflexivity|].
  unfold no_nan in *. now rewrite forallb_app, IH.
Qed.

Lemma is_maximum_concat (vss : list (list float)) :
  forall (ms : list float) (r : float),
    Forall2 is_maximum vss ms ->
    Forall (Forall magnitude) vss ->
    is_maximum ms r ->
    is_maximum (concat vss) r.
Proof.
  intros ms r H2 Hmag [Hnum Hnan]. split.
  - intros Hn. rewrite no_nan_concat in Hn. rewrite forallb_forall in Hn.
    assert (Forall2 (fun vs m => In m vs
                                 /\ Forall (fun v => fleb v m = true) vs
                                 /\ nonneg m = true) vss ms) as H3.
    { clear Hnum Hnan. induction H2 as [|vs m vss ms [Hvs _] H2 IH];
        constructor.
      - inversion Hmag; subst.
        destruct (Hvs (Hn vs (or_introl eq_refl))) as [Hin Hle].
        repeat split; auto.
        apply (is_maximum_nonneg vs); auto. apply Hn. now left.
      - inversion Hmag; subst. apply IH; auto.
        intros y Hy. apply Hn. now right. }
    assert (no_nan ms = true) as Hms.
    { clear - H3. induction H3 as [|vs m vss ms [_ [_ Hp]] _ IH];
        simpl; [reflexivity|].
      rewrite IH, andb_true_r. now destruct m as [| | |]. }
    destruct (Hnum Hms) as [Hin Hle]. rewrite Forall_forall in Hle.
    assert (nonneg r = true) as Hr.
    { clear - H3 Hin. induction H3 as [|vs m vss ms [_ [_ Hp]] _ IH];
        [destruct Hin|].
      destruct Hin as [<-|Hin]; auto. }
    split.
    + clear - H3 Hin. induction H3 as [|vs m vss ms [Hm _] _ IH];
        [destruct Hin|].
      simpl. apply in_or_app.
      destruct Hin as [<-|Hin]; [now left|right; auto].
    + apply Forall_forall. intros v Hv.
      assert (exists vs m, In v vs /\ In m ms
                           /\ Forall (fun v => fleb v m = true) vs
                           /\ nonneg m = true /\ Forall magnitude vs
                           /\ no_nan vs = true) as Hex.
      { clear - H3 Hv Hmag Hn.
        induction H3 as [|vs m vss ms [_ [Hb Hp]] _ IH]; [destruct Hv|].
        simpl in Hv. apply in_app_or in Hv. inversion Hmag; subst.
        destruct Hv as [Hv|Hv].
        - exists vs, m. repeat split; auto; [now left|].
          apply Hn. now left.
        - destruct IH as [vs' [m' [? [? ?]]]]; auto.
          + intros y Hy. apply Hn. now right.
          + exists vs', m'. repeat split; tauto || (right; tauto). }
      destruct Hex as [vs [m [Hvin [Hmin [Hb [Hp [Hvm Hvn]]]]]]].
      rewrite Forall_forall in Hb.
      apply (fleb_trans v m r); auto.
      apply (is_maximum_nonneg vs); auto.
  - intros Hn. apply Hnan. rewrite no_nan_concat in Hn.
    clear - H2 Hn. induction H2 as [|vs m vss ms [_ Hvs] _ IH];
      simpl in *; [discriminate|].
    apply andb_false_iff in Hn. destruct Hn as [Hn|Hn].
    + now rewrite (Hvs Hn).
    + rewrite (IH Hn). apply andb_false_r.
Qed.

Lemma concat_singletons {A : Type} (l : list A) :
  concat (map (fun v => [v]) l) = l.
Proof. induction l as [|v l IH]; simpl; [reflexivity|now rewrite IH]. Qed.

(** The maximum of a head that is itself the maximum of two numbers. *)
Lemma is_maximum_step (a x m r : float) (l : list float) :
  Forall magnitude (a :: x :: l) ->
  is_maximum [a; x] m -> is_maximum (m :: l) r ->
  is_maximum (a :: x :: l) r.
Proof.
  intros Hm Hax Hr.
  inversion Hm as [|? ? Ha Hm']; subst.
  inversion Hm' as [|? ? Hx Hl]; subst.
  pose proof (is_maximum_concat ([a; x] :: map (fun v => [v]) l)
                (m :: l) r) as H.
  cbn [concat app] in H. rewrite concat_singletons in H. apply H.
  - constructor; [exact Hax|].
    clear - Hl. induction Hl as [|v l Hv _ IH]; constructor; auto.
    now apply is_maximum_singleton.
  - constructor; [now repeat constructor|].
    clear - Hl. apply Forall_forall. intros vs Hvs.
    apply in_map_iff in Hvs. destruct Hvs as [v [<- Hv]].
    constructor; [|constructor]. rewrite Forall_forall in Hl. now apply Hl.
  - exact Hr.
Qed.

Section MaxNormOfBackend.
Context {O : Order}.
(** The numbers the backend is exact on, and its laws there: the
    absolute value is the one of the format; the maximum of two
    magnitudes, and of an array of magnitudes, is their maximum. *)
Variable exact : float -> Prop.
Hypothesis exact_nan : exact nan.
Hypothesis exact_abs : forall v, exact v -> exact (fabs v).
Hypothesis abs_law : forall v, exact v -> lax_abs v = fabs v.
Hypothesis max_law :
  forall a b, magnitude a -> magnitude b -> exact a -> exact b ->
              is_maximum [a; b] (lax_max a b).
Hypothesis reduce_law :
  forall a l, Forall magnitude (a :: l) -> Forall exact (a :: l) ->
              is_maximum (a :: l) (reduce_max a l).

Lemma is_maximum_exact (vs : list float) (r : float) :
  Forall exact vs -> is_maximum vs r -> exact r.
Proof.
  intros He H. destruct (is_maximum_cases vs r H) as [->|Hin];
    [exact exact_nan|].
  rewrite Forall_forall in He. now apply He.
Qed.

Lemma fold_maximum_is_maximum (l : list float) :
  forall a, Forall magnitude (a :: l) -> Forall exact (a :: l) ->
            is_maximum (a :: l) (fold_left jnp_maximum l a).
Proof.
  induction l as [|x l IH]; intros a Hm He.
  - inversion Hm; subst. now apply is_maximum_singleton.
  - inversion Hm as [|? ? Ha Hm']; subst.
    inversion Hm' as [|? ? Hx Hl]; subst.
    inversion He as [|? ? Ea He']; subst.
    inversion He' as [|? ? Ex El]; subst.
    pose proof (max_law a x Ha Hx Ea Ex) as Hax.
    cbn [fold_left]. unfold jnp_maximum at 2.
    apply (is_maximum_step a x (lax_max a x)); [exact Hm|exact Hax|].
    apply IH.
    + constructor; [|exact Hl].
      apply (is_maximum_magnitude [a; x]); [now repeat constructor|exact Hax].
    + constructor; [|exact El].
      apply (is_maximum_exact [a; x]); [now repeat constructor|exact Hax].
Qed.

Lemma jnp_abs_exact (l : Array float) :
  Forall exact l -> jnp_abs l = map fabs l.
Proof.
  intros He. unfold jnp_abs. apply map_ext_in. intros v Hv.
  rewrite Forall_forall in He. now apply abs_law, He.
Qed.

Lemma abs_magnitudes (l : list float) : Forall magnitude (map fabs l).
Proof.
  apply Forall_forall. intros v Hv. apply in_map_iff in Hv.
  destruct Hv as [x [<- _]]. apply fabs_magnitude.
Qed.

Lemma abs_exact (l : list float) : Forall exact l -> Forall exact (map fabs l).
Proof.
  intros He. apply Forall_forall. intros v Hv. apply in_map_iff in Hv.
  destruct Hv as [x [<- Hx]]. rewrite Forall_forall in He.
  now apply exact_abs, He.
Qed.

Lemma leaf_maxima_nonempty (leaves : list (Array float)) :
  Forall (fun l => l <> []) leaves ->
  Forall (Forall exact) leaves ->
  exists ms,
    comprehension (fun xi => jnp_max (jnp_abs xi)) leaves = Ok ms
    /\ Forall2 is_maximum (map (map fabs) leaves) ms.
Proof.
  induction leaves as [|l leaves IH]; intros Hne He.
  - exists []. split; [reflexivity|constructor].
  - inversion Hne as [|? ? Hl Hls]; subst.
    inversion He as [|? ? El Els]; subst.
    destruct (IH Hls Els) as [ms [Hms H2]].
    destruct l as [|x l]; [congruence|].
    exists (reduce_max (fabs x) (map fabs l) :: ms). split.
    + cbn [comprehension]. rewrite (jnp_abs_exact (x :: l) El).
      cbn [map jnp_max bind]. now rewrite Hms.
    + cbn [map]. constructor; [|exact H2].
      apply reduce_law.
      * apply (abs_magnitudes (x :: l)).
      * apply (abs_exact (x :: l) El).
Qed.

Lemma leaf_maxima_empty_leaf (leaves : list (Array float)) :
  Exists (fun l => l = []) leaves ->
  comprehension (fun xi => jnp_max (jnp_abs xi)) leaves = Raise ValueError.
Proof.
  induction leaves as [|l leaves IH]; intros Hex; [inversion Hex|].
  destruct l as [|x l]; [reflexivity|].
  inversion Hex as [? ? Hbad|? ? Hex']; subst; [discriminate|].
  cbn [comprehension jnp_abs map jnp_max bind]. now rewrite (IH Hex').
Qed.

Lemma leaf_maxima_ok (leaves : list (Array float)) :
  forall ms,
    comprehension (fun xi => jnp_max (jnp_abs xi)) leaves = Ok ms ->
    Forall (fun l => l <> []) leaves /\ length ms = length leaves.
Proof.
  induction leaves as [|l leaves IH]; intros ms H.
  - injection H as <-. split; [constructor|reflexivity].
  - destruct l as [|x l]; [discriminate|].
    cbn [comprehension jnp_abs map jnp_max bind] in H.
    destruct (comprehension _ leaves) as [ms'|e] eqn:E; [|discriminate].
    injection H as <-. destruct (IH ms' eq_refl) as [Hne Hlen].
    split; [constructor; [discriminate|exact Hne]|].
    cbn [length]. now rewrite Hlen.
Qed.

(** The maximum absolute value, on a container all of whose leaves have
    an element. *)
Lemma max_norm_value (x : PyTree (Array float)) :
  tree_leaves x <> [] ->
  Forall (fun l => l <> []) (tree_leaves x) ->
  Forall exact (ravel_pytree x) ->
  exists r, max_norm x = Ok r
            /\ is_maximum (map fabs (ravel_pytree x)) r
            /\ magnitude r.
Proof.
  intros Hx Hne He. unfold ravel_pytree in *.
  apply Forall_concat in He.
  destruct (leaf_maxima_nonempty (tree_leaves x) Hne He) as [ms [Hms H2]].
  unfold max_norm. rewrite Hms. cbn [bind].
  assert (Forall magnitude ms /\ Forall exact ms) as [Hmm Hme].
  { clear - H2 He exact_nan exact_abs.
    remember (tree_leaves x) as leaves eqn:El. clear El.
    revert ms H2. induction He as [|l leaves Hl _ IH]; intros ms H2;
      inversion H2 as [|? m ? ms' Hm H2']; subst; [split; constructor|].
    destruct (IH ms' H2') as [Hmag Hex]. split; constructor; auto.
    - apply (is_maximum_magnitude (map fabs l)); [apply abs_magnitudes|exact Hm].
    - apply (is_maximum_exact (map fabs l)); [now apply abs_exact|exact Hm]. }
  destruct ms as [|m ms].
  - destruct (tree_leaves x) as [|l ls]; [congruence|inversion H2].
  - exists (fold_left jnp_maximum ms m). split; [reflexivity|].
    pose proof (fold_maximum_is_maximum ms m Hmm Hme) as Hr.
    split; [|now apply (is_maximum_magnitude (m :: ms))].
    rewrite concat_map.
    apply (is_maximum_concat _ (m :: ms)); [exact H2| |exact Hr].
    apply Forall_forall. intros vs Hvs. apply in_map_iff in Hvs.
    destruct Hvs as [l [<- _]]. apply abs_magnitudes.
Qed.

(** What a successful [max_norm] returns. *)
Lemma max_norm_returns (x : PyTree (Array float)) (r : float) :
  max_norm x = Ok r ->
  Forall exact (ravel_pytree x) ->
  is_maximum (map fabs (ravel_pytree x)) r /\ magnitude r.
Proof.
  intros H He.
  assert (tree_leaves x <> [] /\ Forall (fun l => l <> []) (tree_leaves x))
    as [Hx Hne].
  { unfold max_norm in H.
    destruct (comprehension _ (tree_leaves x)) as [ms|e] eqn:E;
      [|discriminate].
    destruct (leaf_maxima_ok _ _ E) as [Hne Hlen]. split; [|exact Hne].
    intros Hnil. rewrite Hnil in Hlen.
    destruct ms; [discriminate H|discriminate Hlen]. }
  destruct (max_norm_value x Hx Hne He) as [r' [Hr' Hmax]].
  rewrite H in Hr'. injection Hr' as <-. exact Hmax.
Qed.
End MaxNormOfBackend.

(** The reference backend is exact on every number. *)
Lemma ieee_reduce_law (a : float) (l : list float) :
  Forall magnitude (a :: l) ->
  is_maximum (a :: l) (fold_left ieee_maximum l a).
Proof.
  intros Hm.
  apply (fold_maximum_is_maximum (O := ieee_order) (fun _ => True)); auto.
  - intros x y Hx Hy _ _. now apply ieee_maximum_pair.
  - apply Forall_forall. auto.
Qed.

Lemma max_norm_ok (x : PyTree (Array float)) (r : float) :
  max_norm x = Ok r ->
  is_maximum (map fabs (ravel_pytree x)) r /\ magnitude r.
Proof.
  intros H.
  apply (max_norm_returns (O := ieee_order) (fun _ => True)); auto.
  - intros a b Ha Hb _ _. now apply ieee_maximum_pair.
  - intros a l Hm _. now apply ieee_reduce_law.
  - apply Forall_forall. auto.
Qed.

Lemma subnormal_abs (fmt : format) (v : float) :
  is_subnormal fmt (fabs v) = is_subnormal fmt v.
Proof. now destruct v. Qed.

Lemma flush_normal (fmt : format) (v : float) :
  is_subnormal fmt v = false -> flush fmt v = v.
Proof. destruct v as [| | |s m e]; try reflexivity. unfold flush. now intros ->. Qed.

Lemma flush_normals (fmt : format) (l : list float) :
  Forall (fun v => is_subnormal fmt v = false) l -> map (flush fmt) l = l.
Proof.
  induction 1 as [|v l Hv _ IH]; [reflexivity|].
  cbn [map]. now rewrite (flush_normal fmt v Hv), IH.
Qed.

Lemma ieee_order_exact (fmt : format) : exact_on_normals fmt ieee_order.
Proof.
  split; [|split].
  - reflexivity.
  - intros a b Ha Hb _ _. now apply ieee_maximum_pair.
  - intros a l Hm _. now apply ieee_reduce_law.
Qed.

Lemma flushing_order_exact (fmt : format) :
  exact_on_normals fmt (flushing_order fmt).
Proof.
  split; [|split].
  - intros v Hv. cbn [lax_abs flushing_order].
    now rewrite (flush_normal fmt v Hv).
  - intros a b Ha Hb Na Nb. cbn [lax_max flushing_order].
    rewrite (flush_normal fmt a Na), (flush_normal fmt b Nb).
    now apply ieee_maximum_pair.
  - intros a l Hm Hn. cbn [reduce_max flushing_order].
    inversion Hn as [|? ? Na Nl]; subst.
    rewrite (flush_normal fmt a Na), (flush_normals fmt l Nl).
    now apply ieee_reduce_law.
Qed.

(** C10, as stated, fails on a container whose leaf is a zero-size
    array: it has a leaf, and the maximum of that leaf raises. *)
Lemma max_norm_zero_size_leaf :
  ~ (forall x : PyTree (Array float),
        tree_leaves x <> [] -> exists r, max_norm x = Ok r).
Proof.
  intros Hclaim.
  destruct (Hclaim (Node PyList [Leaf []]) ltac:(discriminate)) as [r Hr].
  discriminate Hr.
Qed.

(** C10, amended: on a container with zero leaves [max_norm] fails, the
    reduction of the empty list of per-leaf maxima having no initial
    value, while [two_norm] returns [0] there.  When some leaf is a
    zero-size array it fails with the error of the maximum of an empty
    array.  On a container with at least one leaf, all of whose leaves
    have at least one element, none of them subnormal, it returns the
    maximum absolute value over all elements of all leaves (NaN when
    some element is NaN); this on every backend that is exact on the
    numbers that are not subnormal: there its absolute value is the one
    of the format, and its maximum of two magnitudes, and of an array of
    magnitudes, is their maximum. *)
Theorem max_norm_cases (fmt : format) (O : Order)
    (x : PyTree (Array float)) :
  exact_on_normals fmt O ->
  (tree_leaves x = [] ->
   max_norm (O := O) x = Raise TypeError
   /\ forall fmt' (B : Backend fmt'), two_norm fmt' x = pzero)
  /\ (tree_leaves x <> [] ->
      Forall (fun l => l <> []) (tree_leaves x) ->
      Forall (fun v => is_subnormal fmt v = false) (ravel_pytree x) ->
      exists r, max_norm (O := O) x = Ok r
                /\ is_maximum (map fabs (ravel_pytree x)) r)
  /\ (Exists (fun l => l = []) (tree_leaves x) ->
      max_norm (O := O) x = Raise ValueError).
Proof.
  intros [Habs [Hmax Hred]]. split; [|split].
  - intros Hx. unfold max_norm, two_norm, two_norm_run, ravel_pytree.
    rewrite Hx. split; reflexivity.
  - intros Hx Hne He.
    destruct (max_norm_value (fun v => is_subnormal fmt v = false)
                eq_refl
                (fun v Hv => eq_trans (subnormal_abs fmt v) Hv)
                Habs Hmax Hred x Hx Hne He) as [r [Hr [Hm _]]].
    now exists r.
  - intros Hex. unfold max_norm.
    now rewrite (leaf_maxima_empty_leaf _ Hex).
Qed.

Lemma max_norm_cases_witness :
  max_norm (Node PyList []) = Raise TypeError
  /\ (exists r,
         max_norm (Node PyList [Leaf [of_Z binary32 1; of_Z binary32 (-7)];
                                Node PyTuple [Leaf [of_Z binary32 3]]]) = Ok r
         /\ is_maximum
              (map fabs [of_Z binary32 1; of_Z binary32 (-7); of_Z binary32 3])
              r)
  /\ (exists r,
         max_norm (O := flushing_order binary32)
           (Node PyList [Leaf [of_Z binary32 1; of_Z binary32 (-7)];
                         Node PyTuple [Leaf [of_Z binary32 3]]]) = Ok r
         /\ is_maximum
              (map fabs [of_Z binary32 1; of_Z binary32 (-7); of_Z binary32 3])
              r)
  /\ max_norm (Node PyList [Leaf [of_Z binary32 1]; Leaf []])
     = Raise ValueError.
Proof.
  split; [|split; [|split]].
  - exact (proj1 (proj1 (max_norm_cases binary32 ieee_order (Node PyList [])
                           (ieee_order_exact binary32)) eq_refl)).
  - refine (proj1 (proj2 (max_norm_cases binary32 ieee_order
      (Node PyList [Leaf [of_Z binary32 1; of_Z binary32 (-7)];
                    Node PyTuple [Leaf [of_Z binary32 3]]])
      (ieee_order_exact binary32))) _ _ _).
    + discriminate.
    + repeat constructor; discriminate.
    + repeat constructor.
  - refine (proj1 (proj2 (max_norm_cases binary32 (flushing_order binary32)
      (Node PyList [Leaf [of_Z binary32 1; of_Z binary32 (-7)];
                    Node PyTuple [Leaf [of_Z binary32 3]]])
      (flushing_order_exact binary32))) _ _ _).
    + discriminate.
    + repeat constructor; discriminate.
    + repeat constructor.
  - refine (proj2 (proj2 (max_norm_cases binary32 ieee_order
      (Node PyList [Leaf [of_Z binary32 1]; Leaf []])
      (ieee_order_exact binary32))) _).
    right. left. reflexivity.
Defined.

(** On the backend that takes subnormal numbers for zero, the max-norm
    of a container that holds a subnormal number and a zero is zero,
    where the reference backend returns the subnormal number. *)
Example max_norm_flushed :
  let tiny := S754_finite true 1 (-149) in
  max_norm (O := flushing_order binary32) (Leaf [tiny; pzero]) = Ok pzero
  /\ max_norm (Leaf [tiny; pzero]) = Ok (fabs tiny).
Proof. split; reflexivity. Qed.

(* ================================================================== *)
(** ** Flattening and rebuilding a container *)

Lemma unflatten_from_node {A : Type} (k : NodeKind) (ds : list PyTreeDef) :
  forall leaves : list A,
    unflatten_from (DNode k ds) leaves
    = match unflatten_children ds leaves with
      | Some (ts, rest) => Some (Node k ts, rest)
      | None => None
      end.
Proof.
  induction ds as [|d ds IH]; intros leaves; [reflexivity|].
  simpl. destruct (unflatten_from d leaves) as [[t rest]|]; [|reflexivity].
  specialize (IH rest). simpl in IH.
  match type of IH with
  | match ?g with _ => _ end = _ => destruct g as [[ts r]|]
  end;
    destruct (unflatten_children ds rest) as [[ts' r']|];
    try discriminate; [|reflexivity].
  now injection IH as -> ->.
Qed.

Lemma unflatten_children_flatten {A : Type} (ts : list (PyTree A)) :
  Forall (fun t => forall rest,
              unflatten_from (tree_structure t) (tree_leaves t ++ rest)
              = Some (t, rest)) ts ->
  forall rest,
    unflatten_children (map tree_structure ts)
                       (flat_map tree_leaves ts ++ rest)
    = Some (ts, rest).
Proof.
  induction 1 as [|t ts Ht _ IH]; intros rest; simpl; [reflexivity|].
  now rewrite <- app_assoc, Ht, IH.
Qed.

Lemma unflatten_from_flatten {A : Type} (t : PyTree A) :
  forall rest,
    unflatten_from (tree_structure t) (tree_leaves t ++ rest) = Some (t, rest).
Proof.
  induction t as [a|k ts IH] using PyTree_rect'; intros rest.
  - reflexivity.
  - change (tree_structure (Node k ts)) with (DNode k (map tree_structure ts)).
    rewrite unflatten_from_node.
    change (tree_leaves (Node k ts)) with (flat_map tree_leaves ts).
    now rewrite (unflatten_children_flatten ts IH).
Qed.

(** Rebuilding a container from its leaves and its structure gives the
    container back. *)
Lemma tree_unflatten_flatten {A : Type} (t : PyTree A) :
  tree_unflatten (tree_structure t) (tree_leaves t) = Ok t.
Proof.
  unfold tree_unflatten.
  rewrite <- (app_nil_r (tree_leaves t)) at 1.
  now rewrite unflatten_from_flatten.
Qed.

(* ================================================================== *)
(** ** The bounded cache *)

Section LRURefinement.
Variables K V : Type.
Variable hashable : K -> bool.
Variable key_eqb : K -> K -> bool.
Variable maxsize : nat.
Variable f : K -> result V.
(** The keys the wrapper is called with. *)
Variable called : K -> Prop.
(** The entries are deterministic given the key: two keys that Python
    takes for equal have the same value. *)
Hypothesis deterministic :
  forall k k', called k -> called k' -> key_eqb k k' = true -> f k = f k'.

Lemma lru_find_hit (k : K) (c : lru K V) :
  forall entry rest,
    lru_find key_eqb k c = Some (entry, rest) ->
    key_eqb k (fst entry) = true
    /\ In entry c
    /\ (forall x, In x rest -> In x c)
    /\ length c = S (length rest).
Proof.
  induction c as [|[k' v] c IH]; intros entry rest Hfind; simpl in Hfind;
    [discriminate|].
  destruct (key_eqb k k') eqn:E.
  - injection Hfind as <- <-. simpl. repeat split; auto.
  - destruct (lru_find key_eqb k c) as [[entry' rest']|]; [|discriminate].
    injection Hfind as <- <-.
    destruct (IH entry' rest' eq_refl) as [Hk [Hin [Hrest Hlen]]].
    repeat split; auto.
    + now right.
    + intros x [<-|Hx]; [now left|right; auto].
    + simpl. now rewrite Hlen.
Qed.

Lemma removelast_in (c : lru K V) :
  forall x, In x (removelast c) -> In x c.
Proof.
  induction c as [|a c IH]; intros x Hx; [destruct Hx|].
  simpl in Hx. destruct c as [|b c]; [destruct Hx|].
  destruct Hx as [<-|Hx]; [now left|right; auto].
Qed.

Lemma removelast_shorter (c : lru K V) :
  c <> [] -> S (length (removelast c)) = length c.
Proof.
  induction c as [|a c IH]; intros Hc; [congruence|].
  destruct c as [|b c]; [reflexivity|].
  specialize (IH ltac:(discriminate)).
  change (removelast (a :: b :: c)) with (a :: removelast (b :: c)).
  change (length (a :: removelast (b :: c)))
    with (S (length (removelast (b :: c)))).
  rewrite IH. reflexivity.
Qed.

(** One call returns what the function returns, or the [TypeError] of a
    key that cannot be hashed, and keeps the cache sound. *)
Lemma lru_call_refines (c : lru K V) (k : K) :
  (hashable k = true -> called k) -> cache_ok called f c ->
  fst (lru_call hashable key_eqb maxsize f c k)
  = (if hashable k then f k else Raise TypeError)
  /\ cache_ok called f (snd (lru_call hashable key_eqb maxsize f c k)).
Proof.
  intros Hk Hc. unfold lru_call, cache_ok in *.
  destruct (hashable k); cbn [negb]; [|now split].
  specialize (Hk eq_refl).
  rewrite Forall_forall in Hc.
  destruct (lru_find key_eqb k c) as [[entry rest]|] eqn:Efind.
  - destruct (lru_find_hit k c entry rest Efind) as [Heq [Hin [Hrest _]]].
    destruct (Hc entry Hin) as [Hcalled Hval]. simpl. split.
    + rewrite <- Hval. symmetry. now apply deterministic.
    + apply Forall_forall. intros x [<-|Hx]; auto.
  - destruct (f k) as [v|e] eqn:Ef; simpl; split; auto.
    + apply Forall_forall. intros x [<-|Hx]; [now split|].
      apply Hc. destruct (Nat.leb maxsize (length c)); auto.
      now apply removelast_in.
    + now apply Forall_forall.
Qed.

(** One call keeps the cache within its bound. *)
Lemma lru_call_bounded (c : lru K V) (k : K) :
  (0 < maxsize)%nat -> (length c <= maxsize)%nat ->
  (length (snd (lru_call hashable key_eqb maxsize f c k)) <= maxsize)%nat.
Proof.
  intros Hpos Hlen. unfold lru_call.
  destruct (hashable k); cbn [negb]; [|exact Hlen].
  destruct (lru_find key_eqb k c) as [[entry rest]|] eqn:Efind.
  - destruct (lru_find_hit k c entry rest Efind) as [_ [_ [_ Hl]]].
    simpl. lia.
  - destruct (f k) as [v|e]; simpl; [|exact Hlen].
    destruct (Nat.leb maxsize (length c)) eqn:E.
    + apply Nat.leb_le in E.
      rewrite removelast_shorter; [lia|].
      intros ->. simpl in E. lia.
    + apply Nat.leb_gt in E. lia.
Qed.

(** A sequence of calls returns what the function returns at every
    call whose key can be hashed. *)
Lemma lru_calls_refine (ks : list K) :
  forall c,
    Forall (fun k => hashable k = true -> called k) ks ->
    cache_ok called f c ->
    (0 < maxsize)%nat -> (length c <= maxsize)%nat ->
    fst (lru_calls hashable key_eqb maxsize f c ks)
    = map (fun k => if hashable k then f k else Raise TypeError) ks
    /\ cache_ok called f (snd (lru_calls hashable key_eqb maxsize f c ks))
    /\ (length (snd (lru_calls hashable key_eqb maxsize f c ks))
        <= maxsize)%nat.
Proof.
  induction ks as [|k ks IH]; intros c Hks Hc Hpos Hlen; simpl.
  - auto.
  - inversion Hks as [|? ? Hk Hks']; subst.
    destruct (lru_call_refines c k Hk Hc) as [Hr Hc'].
    pose proof (lru_call_bounded c k Hpos Hlen) as Hlen'.
    destruct (lru_call hashable key_eqb maxsize f c k) as [r c'] eqn:E1.
    simpl in Hr, Hc', Hlen'.
    destruct (IH c' Hks' Hc' Hpos Hlen') as [Hrs [Hc'' Hlen'']].
    destruct (lru_calls hashable key_eqb maxsize f c' ks) as [rs c''] eqn:E2.
    simpl in *. repeat split; auto. now rewrite Hr, Hrs.
Qed.
End LRURefinement.

(** A cache of two entries: a hit moves its entry to the front, a miss
    on a full cache evicts the least recently used entry, a call that
    raises leaves the cache as it was, and so does a call whose key
    cannot be hashed (here the negative keys). *)
Example lru_trace :
  lru_calls (fun k => 0 <=? k) Z.eqb 2
    (fun k => if k =? 9 then Raise ValueError else Ok (k * k))
    [] [1; 2; 1; 3; 2; 9; -1; 1]
  = ([Ok 1; Ok 4; Ok 1; Ok 9; Ok 4; Raise ValueError; Raise TypeError; Ok 1],
     [(1, 1); (2, 4)]).
Proof. reflexivity. Qed.

(* ================================================================== *)
(** ** The cached shape inference *)

(** The body of the cached function, at the key of a call, is the
    inference on the call with every array replaced by its shape and
    dtype. *)
Lemma body_at_signature (Static Data Out : Type)
    (filter_eval_shape :
       PyTree (leaf Static Data) -> PyTree (leaf Static Data) ->
       PyTree (leaf Static Data) -> result Out)
    (call : PyTree (leaf Static Data) * PyTree (leaf Static Data)
            * PyTree (leaf Static Data)) :
  _cached_eval_shape_body filter_eval_shape (signature_of call)
  = direct_eval_shape filter_eval_shape (to_structs call).
Proof.
  destruct call as [[fn args] kwargs].
  unfold signature_of, signature, tree_flatten, _cached_eval_shape_body.
  now rewrite tree_unflatten_flatten.
Qed.

Section CachedEvalShapeRefinement.
Variable Static : Type.
Variable static_eqb : Static -> Static -> bool.
Variables Data Out : Type.
Variable filter_eval_shape :
  PyTree (leaf Static Data) -> PyTree (leaf Static Data) ->
  PyTree (leaf Static Data) -> result Out.

(** The inferred shape is deterministic given the key. *)
Hypothesis deterministic_given_key :
  forall call call',
    key_hashable (signature_of call) = true ->
    key_hashable (signature_of call') = true ->
    key_eqb static_eqb (signature_of call) (signature_of call') = true ->
    direct_eval_shape filter_eval_shape (to_structs call)
    = direct_eval_shape filter_eval_shape (to_structs call').

Lemma cached_eval_shapes_calls
    (calls : list (PyTree (leaf Static Data) * PyTree (leaf Static Data)
                   * PyTree (leaf Static Data))) :
  forall cache,
    cached_eval_shapes static_eqb filter_eval_shape cache calls
    = lru_calls key_hashable (key_eqb static_eqb) 128
                (_cached_eval_shape_body filter_eval_shape) cache
                (map signature_of calls).
Proof.
  induction calls as [|[[fn args] kwargs] calls IH]; intros cache;
    [reflexivity|].
  simpl. unfold cached_eval_shape, _cached_eval_shape.
  destruct (lru_call _ _ _ _ cache (signature fn args kwargs)) as [r cache'].
  now rewrite IH.
Qed.

Lemma cached_eval_shapes_refine_section
    (calls : list (PyTree (leaf Static Data) * PyTree (leaf Static Data)
                   * PyTree (leaf Static Data))) :
  fst (cached_eval_shapes static_eqb filter_eval_shape [] calls)
  = map (keyed_eval_shape filter_eval_shape) calls
  /\ (length (snd (cached_eval_shapes static_eqb filter_eval_shape [] calls))
      <= 128)%nat.
Proof.
  rewrite cached_eval_shapes_calls.
  destruct (lru_calls_refine (key Static Data) Out key_hashable
              (key_eqb static_eqb) 128
              (_cached_eval_shape_body filter_eval_shape)
              (fun k => key_hashable k = true
                        /\ exists call, k = signature_of call)) with
    (ks := map signature_of calls) (c := @nil (key Static Data * Out))
    as [Hrs [_ Hlen]].
  - intros k k' [Hk [call ->]] [Hk' [call' ->]] Heq.
    rewrite !body_at_signature. now apply deterministic_given_key.
  - apply Forall_forall. intros k Hk Hh. apply in_map_iff in Hk.
    destruct Hk as [call [<- _]]. split; [exact Hh|now exists call].
  - constructor.
  - lia.
  - simpl. lia.
  - split; [|exact Hlen].
    rewrite Hrs, map_map. apply map_ext. intros call.
    unfold keyed_eval_shape. now rewrite body_at_signature.
Qed.
End CachedEvalShapeRefinement.

Lemma tree_leaves_map {A B : Type} (f : A -> B) (t : PyTree A) :
  tree_leaves (tree_map f t) = map f (tree_leaves t).
Proof.
  induction t as [a|k ts IH] using PyTree_rect'; [reflexivity|].
  simpl. induction IH as [|t ts Ht _ IHts]; simpl; [reflexivity|].
  now rewrite map_app, Ht, IHts.
Qed.

Lemma list_eqb_nat_eq (s s' : list nat) :
  list_eqb Nat.eqb s s' = true -> s = s'.
Proof.
  revert s'. induction s as [|n s IH]; intros [|n' s'] H; simpl in H;
    try discriminate; [reflexivity|].
  apply andb_true_iff in H. destruct H as [Hn Hs].
  apply Nat.eqb_eq in Hn. subst n'. now rewrite (IH s' Hs).
Qed.

Lemma dtype_eqb_eq (d d' : dtype) : dtype_eqb d d' = true -> d = d'.
Proof. destruct d, d'; simpl; intros H; try discriminate; reflexivity. Qed.

Lemma shapes_of_to_struct {Static Data : Type} (ls : list (leaf Static Data)) :
  shapes_of (map _to_struct ls) = shapes_of ls.
Proof.
  induction ls as [|l ls IH]; simpl; [reflexivity|].
  rewrite IH. now destruct l.
Qed.

Lemma equal_leaves_shapes {Static Data : Type}
    (static_eqb : Static -> Static -> bool) (ls : list (leaf Static Data)) :
  forall ls', list_eqb (leaf_eqb static_eqb) ls ls' = true ->
              shapes_of ls = shapes_of ls'.
Proof.
  induction ls as [|l ls IH]; intros [|l' ls'] H; simpl in H;
    try discriminate; [reflexivity|].
  apply andb_true_iff in H. destruct H as [Hl Hls].
  simpl. rewrite (IH ls' Hls).
  destruct l as [s d w x|s d|v|v], l' as [s' d' w' x'|s' d'|v'|v'];
    simpl in Hl; try discriminate; [|reflexivity].
  apply andb_true_iff in Hl. destruct Hl as [Hs Hd].
  now rewrite (list_eqb_nat_eq s s' Hs), (dtype_eqb_eq d d' Hd).
Qed.

Lemma signature_leaves {Static Data : Type}
    (fn args kwargs : PyTree (leaf Static Data)) :
  fst (signature fn args kwargs)
  = map _to_struct (tree_leaves fn ++ tree_leaves args ++ tree_leaves kwargs).
Proof.
  unfold signature, tree_flatten. simpl.
  now rewrite !tree_leaves_map, app_nil_r, !map_app.
Qed.

Lemma echo_abstract_evaluation {Static Data : Type}
    (call : PyTree (leaf Static Data) * PyTree (leaf Static Data)
            * PyTree (leaf Static Data)) :
  direct_eval_shape echo_eval_shape (to_structs call)
  = direct_eval_shape echo_eval_shape call.
Proof.
  destruct call as [[fn args] kwargs].
  unfold direct_eval_shape, to_structs, echo_eval_shape.
  now rewrite !tree_leaves_map, <- !map_app, shapes_of_to_struct.
Qed.

Lemma echo_deterministic_given_key {Static Data : Type}
    (static_eqb : Static -> Static -> bool)
    (call call' : PyTree (leaf Static Data) * PyTree (leaf Static Data)
                  * PyTree (leaf Static Data)) :
  key_hashable (signature_of call) = true ->
  key_hashable (signature_of call') = true ->
  key_eqb static_eqb (signature_of call) (signature_of call') = true ->
  direct_eval_shape echo_eval_shape (to_structs call)
  = direct_eval_shape echo_eval_shape (to_structs call').
Proof.
  intros _ _. rewrite !echo_abstract_evaluation.
  destruct call as [[fn args] kwargs], call' as [[fn' args'] kwargs'].
  unfold key_eqb, signature_of, direct_eval_shape, echo_eval_shape.
  intros H. apply andb_true_iff in H. destruct H as [H _].
  rewrite !signature_leaves in H.
  apply equal_leaves_shapes in H. rewrite !shapes_of_to_struct in H.
  now rewrite H.
Qed.

(** C8, as stated, fails on a weakly typed array: the key keeps the
    shape and the dtype of an array and drops the weakness of the dtype,
    so that the sum of a weak [float32] scalar and a [float16] scalar is
    inferred as [float32] through the cache and as [float16] without. *)
Lemma cached_eval_shape_weak_type :
  ~ (forall fn args kwargs : PyTree (leaf Z Z),
        fst (cached_eval_shape Z.eqb add_eval_shape [] fn args kwargs)
        = add_eval_shape fn args kwargs).
Proof.
  intros Hclaim.
  specialize (Hclaim (Leaf (StaticLeaf 1))
                     (Node PyTuple [Leaf (ArrayLeaf [] float32 true 0);
                                    Leaf (ArrayLeaf [] float16 false 0)])
                     (Node (PyDict []) [])).
  discriminate Hclaim.
Qed.

(** It fails as well on a leaf that Python cannot hash: the cache raises
    before inference is run. *)
Example cached_eval_shape_unhashable :
  let fn : PyTree (leaf Z Z) := Leaf (StaticLeaf 1) in
  let args : PyTree (leaf Z Z) :=
    Node PyTuple [Leaf (ArrayLeaf [2]%nat float32 false 0);
                  Leaf (UnhashableLeaf 7)] in
  let kwargs : PyTree (leaf Z Z) := Node (PyDict []) [] in
  fst (cached_eval_shape Z.eqb echo_eval_shape [] fn args kwargs)
  = Raise TypeError
  /\ echo_eval_shape fn args kwargs = Ok [([2]%nat, float32)].
Proof. split; reflexivity. Qed.

(** C8, amended: when the result of shape inference is deterministic
    given the key (the leaves of [(fn, args, kwargs)] with every array
    replaced by its shape and dtype, and the structure), every call of
    [cached_eval_shape], in any sequence of calls on the process-wide
    cache, raises [TypeError] when a leaf that is not an array cannot be
    hashed, and otherwise returns what the uncached inference returns on
    the arguments with every array replaced by its shape and dtype.
    This is what the uncached inference returns on the arguments
    themselves for the calls on which inference depends on nothing the
    replacement drops, the elements of an array and the weakness of its
    dtype.  The cache never holds more than 128 entries. *)
Theorem cached_eval_shape_refines (Static : Type)
    (static_eqb : Static -> Static -> bool) (Data Out : Type)
    (filter_eval_shape :
       PyTree (leaf Static Data) -> PyTree (leaf Static Data) ->
       PyTree (leaf Static Data) -> result Out)
    (calls : list (PyTree (leaf Static Data) * PyTree (leaf Static Data)
                   * PyTree (leaf Static Data))) :
  (forall call call',
      key_hashable (signature_of call) = true ->
      key_hashable (signature_of call') = true ->
      key_eqb static_eqb (signature_of call) (signature_of call') = true ->
      direct_eval_shape filter_eval_shape (to_structs call)
      = direct_eval_shape filter_eval_shape (to_structs call')) ->
  fst (cached_eval_shapes static_eqb filter_eval_shape [] calls)
  = map (fun call =>
           if key_hashable (signature_of call)
           then direct_eval_shape filter_eval_shape (to_structs call)
           else Raise TypeError) calls
  /\ (Forall (fun call =>
                key_hashable (signature_of call) = true
                /\ direct_eval_shape filter_eval_shape (to_structs call)
                   = direct_eval_shape filter_eval_shape call) calls ->
      fst (cached_eval_shapes static_eqb filter_eval_shape [] calls)
      = map (direct_eval_shape filter_eval_shape) calls)
  /\ (length (snd (cached_eval_shapes static_eqb filter_eval_shape [] calls))
      <= 128)%nat.
Proof.
  intros Hdet.
  destruct (cached_eval_shapes_refine_section Static static_eqb Data Out
              filter_eval_shape Hdet calls) as [Hrs Hlen].
  split; [exact Hrs|]. split; [|exact Hlen].
  intros Hall. rewrite Hrs. apply map_ext_in. intros call Hin.
  rewrite Forall_forall in Hall. destruct (Hall call Hin) as [Hh Habs].
  unfold keyed_eval_shape. now rewrite Hh.
Qed.

Lemma cached_eval_shape_refines_witness :
  let fn : PyTree (leaf Z Z) := Leaf (StaticLeaf 1) in
  let call (weak : bool) (data : Z) :=
    (fn,
     Node PyTuple [Leaf (ArrayLeaf [2; 3]%nat float32 weak data);
                   Leaf (StaticLeaf 4)],
     Node (PyDict []) []) in
  let bad :=
    (fn, Node PyTuple [Leaf (UnhashableLeaf 4)], Node (PyDict []) []) in
  fst (cached_eval_shapes Z.eqb echo_eval_shape []
         [call false 5; bad; call true 7; call false 5])
  = [Ok [([2; 3]%nat, float32)]; Raise TypeError;
     Ok [([2; 3]%nat, float32)]; Ok [([2; 3]%nat, float32)]]
  /\ fst (cached_eval_shapes Z.eqb echo_eval_shape []
            [call false 5; call true 7; call false 5])
     = map (direct_eval_shape echo_eval_shape)
           [call false 5; call true 7; call false 5].
Proof.
  intros fn call bad. split.
  - exact (proj1 (cached_eval_shape_refines Z Z.eqb Z
                    (list (list nat * dtype)) echo_eval_shape
                    [call false 5; bad; call true 7; call false 5]
                    (echo_deterministic_given_key Z.eqb))).
  - refine (proj1 (proj2 (cached_eval_shape_refines Z Z.eqb Z
                            (list (list nat * dtype)) echo_eval_shape
                            [call false 5; call true 7; call false 5]
                            (echo_deterministic_given_key Z.eqb))) _).
    repeat constructor.
Defined.

(* ================================================================== *)
(** ** Exact rounding *)

Lemma digits2_size (p : positive) : digits2_pos p = Pos.size p.
Proof. induction p; simpl; congruence. Qed.

Lemma fexp_normal (prec emax k : Z) :
  3 - emax - prec <= k - prec -> fexp prec emax k = k - prec.
Proof. unfold fexp, emin. intros H. lia. Qed.

Lemma size_bounds (p : positive) :
  2 ^ (Zpos (Pos.size p) - 1) <= Zpos p < 2 ^ Zpos (Pos.size p).
Proof.
  pose proof (Pos.size_gt p) as Hgt. pose proof (Pos.size_le p) as Hle.
  split.
  - assert (2 ^ Zpos (Pos.size p) <= 2 * Zpos p) as H.
    { change (2 * Zpos p) with (Zpos p~0). rewrite <- Pos2Z.inj_pow. lia. }
    replace (Zpos (Pos.size p)) with (Z.succ (Zpos (Pos.size p) - 1)) in H by lia.
    rewrite Z.pow_succ_r in H by lia. lia.
  - rewrite <- Pos2Z.inj_pow. lia.
Qed.

Lemma size_unique (p : positive) (k : Z) :
  2 ^ (k - 1) <= Zpos p < 2 ^ k -> Zpos (Pos.size p) = k.
Proof.
  intros [Hlo Hhi]. pose proof (size_bounds p) as [Slo Shi].
  assert (0 < k) as Hk.
  { destruct (Z.ltb_spec 0 k); auto.
    assert (2 ^ k <= 1). { destruct (Z.eq_dec k 0); subst; [simpl; lia|]. rewrite Z.pow_neg_r; lia. }
    lia. }
  destruct (Z.lt_trichotomy (Zpos (Pos.size p)) k) as [H|[H|H]]; auto.
  - assert (2 ^ Zpos (Pos.size p) <= 2 ^ (k - 1)) by (apply Z.pow_le_mono_r; lia). lia.
  - assert (2 ^ k <= 2 ^ (Zpos (Pos.size p) - 1)) by (apply Z.pow_le_mono_r; lia). lia.
Qed.

Lemma pow2_double (m s : positive) :
  (m * 2 ^ s~0 = m * 2 ^ s * 2 ^ s)%positive.
Proof.
  apply Pos2Z.inj. rewrite !Pos2Z.inj_mul, !Pos2Z.inj_pow.
  replace (Zpos s~0) with (Zpos s + Zpos s) by lia.
  rewrite Z.pow_add_r by lia. lia.
Qed.

Lemma pow2_double_succ (m s : positive) :
  (m * 2 ^ s~1 = (m * 2 ^ s * 2 ^ s)~0)%positive.
Proof.
  apply Pos2Z.inj. rewrite Pos2Z.inj_xO, !Pos2Z.inj_mul, !Pos2Z.inj_pow.
  replace (Zpos s~1) with (Zpos s + Zpos s + 1) by lia.
  rewrite !Z.pow_add_r by lia. lia.
Qed.

Lemma iter_shr_1_exact (s : positive) :
  forall m : positive,
    iter_pos shr_1 s (Build_shr_record (Zpos (m * 2 ^ s)) false false)
    = Build_shr_record (Zpos m) false false.
Proof.
  induction s as [s IH|s IH|]; intros m.
  - rewrite pow2_double_succ. simpl. now rewrite IH, IH.
  - rewrite pow2_double. simpl. now rewrite IH, IH.
  - rewrite Pos.pow_1_r, Pos.mul_comm. reflexivity.
Qed.

Lemma digits2_shift (s : positive) (m : positive) :
  Zpos (digits2_pos (m * 2 ^ s)) = Zpos (digits2_pos m) + Zpos s.
Proof.
  rewrite (digits2_size m), (digits2_size (m * 2 ^ s)). apply size_unique.
  pose proof (size_bounds m) as [Hlo Hhi].
  rewrite Pos2Z.inj_mul, Pos2Z.inj_pow.
  replace (Zpos (Pos.size m) + Zpos s - 1) with ((Zpos (Pos.size m) - 1) + Zpos s) by lia.
  assert (0 < Zpos (Pos.size m)) by lia.
  rewrite !Z.pow_add_r by lia.
  assert (0 < 2 ^ Zpos s) by (apply Z.pow_pos_nonneg; lia).
  split.
  - apply Z.mul_le_mono_nonneg_r; lia.
  - apply Z.mul_lt_mono_pos_r; lia.
Qed.

Section ExactRounding.
Variables prec emax : Z.

(** A mantissa already in canonical position is not changed by rounding. *)
Lemma binary_round_aux_canonical (sx : bool) (m : positive) (e : Z) :
  fexp prec emax (Zpos (digits2_pos m) + e) = e ->
  e <= emax - prec ->
  binary_round_aux prec emax sx (Zpos m) e loc_Exact = S754_finite sx m e.
Proof.
  intros Hc He. unfold binary_round_aux, shr_fexp.
  cbn [Zdigits2 shr_record_of_loc].
  rewrite Hc, Z.sub_diag.
  cbn [shr shr_m loc_of_shr_record round_nearest_even Zdigits2 shr_record_of_loc].
  rewrite Hc, Z.sub_diag.
  cbn [shr shr_m].
  apply Z.leb_le in He. now rewrite He.
Qed.

(** Trailing zero bits are shifted out exactly. *)
Lemma binary_round_aux_shift (sx : bool) (m s : positive) (e : Z) :
  fexp prec emax (Zpos (digits2_pos m) + Zpos s + e) = e + Zpos s ->
  e + Zpos s <= emax - prec ->
  binary_round_aux prec emax sx (Zpos (m * 2 ^ s)) e loc_Exact
  = S754_finite sx m (e + Zpos s).
Proof.
  intros Hc He. unfold binary_round_aux, shr_fexp.
  cbn [Zdigits2 shr_record_of_loc].
  rewrite digits2_shift, Hc.
  replace (e + Zpos s - e) with (Zpos s) by lia.
  cbn [shr]. rewrite iter_shr_1_exact.
  cbn [shr_m loc_of_shr_record round_nearest_even Zdigits2 shr_record_of_loc].
  replace (Zpos (digits2_pos m) + (e + Zpos s))
    with (Zpos (digits2_pos m) + Zpos s + e) by lia.
  rewrite Hc, Z.sub_diag.
  cbn [shr shr_m].
  apply Z.leb_le in He. now rewrite He.
Qed.
End ExactRounding.

Lemma iter_xO_pow (m d : positive) : Pos.iter xO m d = (m * 2 ^ d)%positive.
Proof.
  induction d as [|d IH] using Pos.peano_ind.
  - simpl. now rewrite Pos.pow_1_r, Pos.mul_comm.
  - rewrite Pos.iter_succ, IH, Pos.pow_succ_r.
    rewrite Pos.mul_assoc, (Pos.mul_comm m 2), <- Pos.mul_assoc. reflexivity.
Qed.

Lemma size_le_of_lt (p : positive) (k : Z) :
  0 <= k -> Zpos p < 2 ^ k -> Zpos (digits2_pos p) <= k.
Proof.
  intros Hk Hp. rewrite digits2_size.
  pose proof (size_bounds p) as [Hlo _].
  destruct (Z.le_gt_cases (Zpos (Pos.size p)) k) as [H|H]; [exact H|].
  assert (2 ^ k <= 2 ^ (Zpos (Pos.size p) - 1)) by (apply Z.pow_le_mono_r; lia).
  lia.
Qed.

(** The conversion of a small integer is exact. *)
Lemma of_Z_binary64_exact (n : positive) :
  Zpos n < 2 ^ 52 ->
  of_Z binary64 (Zpos n)
  = S754_finite false (n * 2 ^ Z.to_pos (53 - Zpos (digits2_pos n)))
                (Zpos (digits2_pos n) - 53).
Proof.
  intros Hn. pose proof (size_le_of_lt n 52 ltac:(lia) Hn) as Hd.
  set (d := Zpos (digits2_pos n)) in *.
  unfold of_Z, binary_normalize, binary_round. simpl fprec. simpl femax.
  replace (Zpos (digits2_pos n) + 0) with d by (unfold d; lia).
  rewrite fexp_normal by lia.
  unfold shl_align.
  destruct (d - 53 - 0) as [|q|q] eqn:Eq; try lia.
  assert (q = Z.to_pos (53 - d)) as -> by lia.
  rewrite iter_xO_pow.
  apply binary_round_aux_canonical; [|lia].
  rewrite digits2_shift. fold d.
  rewrite Z2Pos.id by lia.
  rewrite fexp_normal by lia. lia.
Qed.

Lemma one_and_a_half_value :
  one_and_a_half = S754_finite false 6755399441055744 (-52).
Proof. reflexivity. Qed.

(** [1.5 * n] is computed exactly for a small integer [n]: the result is
    [3 n * 2^b * 2^(-b-1)]. *)
Lemma times_one_and_a_half_exact (n : positive) :
  Zpos n < 2 ^ 50 ->
  let b := Z.to_pos (53 - Zpos (digits2_pos (3 * n))) in
  fmul binary64 one_and_a_half (of_Z binary64 (Zpos n))
  = S754_finite false (3 * n * 2 ^ b) (- Zpos b - 1).
Proof.
  intros Hn b.
  rewrite of_Z_binary64_exact by lia. rewrite one_and_a_half_value.
  pose proof (size_le_of_lt n 50 ltac:(lia) Hn) as Hd.
  assert (Zpos (3 * n) < 2 ^ 52) as H3 by lia.
  pose proof (size_le_of_lt (3 * n) 52 ltac:(lia) H3) as Hd3.
  set (d := Zpos (digits2_pos n)) in *.
  set (d3 := Zpos (digits2_pos (3 * n))) in *.
  assert (0 < d) as Hd0 by (unfold d; lia).
  assert (0 < d3) as Hd30 by (unfold d3; lia).
  assert (Zpos b = 53 - d3) as Hb by (unfold b; fold d3; lia).
  unfold fmul, SFmul. simpl xorb. simpl fprec. simpl femax.
  set (s := Z.to_pos (51 + d3 - d)).
  assert (Zpos s = 51 + d3 - d) as Hs by (unfold s; lia).
  replace (6755399441055744 * (n * 2 ^ Z.to_pos (53 - d)))%positive
    with (3 * n * 2 ^ b * 2 ^ s)%positive.
  - replace (- Zpos b - 1) with (-52 + (d - 53) + Zpos s) by lia.
    apply binary_round_aux_shift.
    + rewrite digits2_shift. fold d3. rewrite fexp_normal; lia.
    + lia.
  - apply Pos2Z.inj. rewrite !Pos2Z.inj_mul, !Pos2Z.inj_pow.
    rewrite Z2Pos.id by lia. rewrite Hb, Hs.
    change (Zpos 6755399441055744) with (3 * 2 ^ 51).
    replace (3 * Zpos n * 2 ^ (53 - d3) * 2 ^ (51 + d3 - d))
      with (3 * Zpos n * (2 ^ (53 - d3) * 2 ^ (51 + d3 - d))) by ring.
    rewrite <- Z.pow_add_r by lia.
    replace (3 * 2 ^ 51 * (Zpos n * 2 ^ (53 - d)))
      with (3 * Zpos n * (2 ^ 51 * 2 ^ (53 - d))) by ring.
    rewrite <- Z.pow_add_r by lia.
    f_equal. f_equal. lia.
Qed.

(** The comparison with [1.5 * out_size] is the comparison of integers
    [2 in_size <= 3 out_size]. *)
Lemma compare_with_one_and_a_half (in_size out_size : Z) :
  0 <= out_size < 2 ^ 50 ->
  Z_leb_float in_size
    (fmul binary64 one_and_a_half (of_Z binary64 out_size)) = true
  <-> 2 * in_size <= 3 * out_size.
Proof.
  intros [Hlo Hhi]. destruct out_size as [|n|n]; [| |lia].
  - change (Z_leb_float in_size
              (fmul binary64 one_and_a_half (of_Z binary64 0)))
      with (in_size <=? 0).
    rewrite Z.leb_le. lia.
  - rewrite times_one_and_a_half_exact by exact Hhi.
    set (b := Z.to_pos (53 - Zpos (digits2_pos (3 * n)))).
    unfold Z_leb_float.
    destruct (- Zpos b - 1) as [|q|q] eqn:Eq; try lia.
    assert (q = (b + 1)%positive) as -> by lia.
    unfold cond_Zopp. rewrite Z.leb_le.
    rewrite Pos2Z.inj_mul, Pos2Z.inj_pow, Pos2Z.inj_add.
    rewrite Z.pow_add_r by lia.
    assert (0 < 2 ^ Zpos b) as Hp by (apply Z.pow_pos_nonneg; lia).
    change (2 ^ 1) with 2. rewrite Pos2Z.inj_mul.
    replace (in_size * (2 ^ Zpos b * 2)) with (2 * in_size * 2 ^ Zpos b) by ring.
    symmetry. apply Z.mul_le_mono_pos_r. exact Hp.
Qed.

(* ================================================================== *)
(** ** The choice of the differentiation mode *)

Lemma float_of_small_int (z : Z) :
  0 <= z < 2 ^ 52 -> float_of_int z = Ok (of_Z binary64 z).
Proof.
  intros [Hlo Hhi]. unfold float_of_int.
  destruct z as [|n|n]; [reflexivity| |lia].
  now rewrite of_Z_binary64_exact.
Qed.

Lemma prefer_forward_exact (in_size out_size : Z) :
  0 <= out_size < 2 ^ 50 ->
  prefer_forward in_size out_size
  = Ok ((in_size <? 100) || (2 * in_size <=? 3 * out_size)).
Proof.
  intros Hout. unfold prefer_forward, float_mul_int.
  destruct (in_size <? 100); [reflexivity|].
  rewrite float_of_small_int by lia. cbn [bind orb]. f_equal.
  pose proof (compare_with_one_and_a_half in_size out_size Hout) as H.
  destruct (Z_leb_float in_size _);
    destruct (Z.leb_spec (2 * in_size) (3 * out_size)); try reflexivity.
  - assert (2 * in_size <= 3 * out_size) by now apply H. lia.
  - assert (false = true) by now apply H. discriminate.
Qed.

(** Beyond [2^53] the product [1.5 * out_size] is rounded, and the test
    of the code is no longer the test on the integers. *)
Example prefer_forward_rounded :
  prefer_forward (3 * 2 ^ 52 + 4) (2 ^ 53 + 2) = Ok true
  /\ (2 * (3 * 2 ^ 52 + 4) <=? 3 * (2 ^ 53 + 2)) = false.
Proof. split; reflexivity. Qed.




(* ================================================================== *)
(** ** The solve of the test scenario *)

(** C2: the system with matrix [[1, 5], [-2, -2]] and right-hand side
    [3, 4], given as a nested container and solved by [linear_solve]
    with its default solver (LU, the operator being square and
    untagged), has the solution [-3.25, 1.25], in single and in double
    precision; that solution satisfies the system exactly. *)
Theorem solve_scenario :
  (forall fmt, In fmt [binary32; binary64] ->
     scenario_solve fmt
     = Ok {| value := scenario_solution fmt; result_of := successful |}
     /\ matvec fmt (scenario_blocks fmt) (scenario_solution fmt)
        = scenario_rhs fmt)
  /\ (forall operator,
        PyTreeLinearOperator (scenario_blocks binary32) 2 [] = Ok operator ->
        default_solver operator = LU).
Proof.
  split.
  - intros fmt [<-|[<-|[]]]; split; vm_compute; reflexivity.
  - intros operator H. vm_compute in H. injection H as <-. reflexivity.
Qed.

Lemma solve_scenario_witness :
  scenario_solve binary32
  = Ok {| value := [of_Z2 binary32 (-13) (-2); of_Z2 binary32 5 (-2)];
          result_of := successful |}.
Proof.
  exact (proj1 (proj1 solve_scenario binary32 (or_introl eq_refl))).
Defined.

(* ================================================================== *)
(** ** Further properties: containers *)

Lemma list_eqb_string_refl (ks : list string) :
  list_eqb String.eqb ks ks = true.
Proof.
  induction ks as [|k ks IH]; simpl; [reflexivity|].
  now rewrite String.eqb_refl, IH.
Qed.

Lemma NodeKind_eqb_refl (k : NodeKind) : NodeKind_eqb k k = true.
Proof. destruct k; simpl; auto using list_eqb_string_refl. Qed.

Lemma flatten_up_to_node {L : Type} (k k' : NodeKind) (ds : list PyTreeDef) :
  forall ts : list (PyTree L),
    flatten_up_to (DNode k ds) (Node k' ts)
    = if negb (NodeKind_eqb k k') then Raise ValueError
      else flatten_children_up_to ds ts.
Proof.
  intros ts. simpl. destruct (negb (NodeKind_eqb k k')); [reflexivity|].
  revert ts. induction ds as [|d ds IH]; intros [|t ts]; try reflexivity.
  simpl. destruct (flatten_up_to d t) as [xs|e]; [|reflexivity].
  simpl. now rewrite IH.
Qed.

Lemma flatten_up_to_self {L : Type} (t : PyTree L) :
  flatten_up_to (tree_structure t) t = Ok (map Leaf (tree_leaves t)).
Proof.
  induction t as [a|k ts IH] using PyTree_rect'; [reflexivity|].
  change (tree_structure (Node k ts)) with (DNode k (map tree_structure ts)).
  rewrite flatten_up_to_node, NodeKind_eqb_refl. simpl negb. cbv iota.
  change (tree_leaves (Node k ts)) with (flat_map tree_leaves ts).
  induction IH as [|t ts Ht _ IHts]; [reflexivity|].
  simpl. rewrite Ht. simpl. rewrite IHts. simpl. now rewrite map_app.
Qed.

Lemma tree_leaves_count {A : Type} (t : PyTree A) :
  length (tree_leaves t) = num_leaves (tree_structure t).
Proof.
  induction t as [a|k ts IH] using PyTree_rect'; [reflexivity|].
  simpl. induction IH as [|t ts Ht _ IHts]; [reflexivity|].
  simpl. now rewrite length_app, Ht, IHts.
Qed.

Lemma unflatten_children_structure {A : Type} (ds : list PyTreeDef) :
  Forall (fun d => forall (ls : list A) t rest,
              unflatten_from d ls = Some (t, rest) ->
              tree_structure t = d /\ ls = tree_leaves t ++ rest) ds ->
  forall (ls : list A) ts rest,
    unflatten_children ds ls = Some (ts, rest) ->
    map tree_structure ts = ds /\ ls = flat_map tree_leaves ts ++ rest.
Proof.
  induction 1 as [|d ds Hd _ IH]; intros ls ts rest Hu; simpl in Hu.
  - injection Hu as <- <-. split; reflexivity.
  - destruct (unflatten_from d ls) as [[t r]|] eqn:E1; [|discriminate].
    destruct (unflatten_children ds r) as [[ts' r']|] eqn:E2; [|discriminate].
    injection Hu as <- <-.
    destruct (Hd ls t r E1) as [Hs Hl].
    destruct (IH r ts' r' E2) as [Hss Hls].
    simpl. split; [now rewrite Hs, Hss|].
    now rewrite Hl, Hls, app_assoc.
Qed.

Lemma unflatten_from_structure {A : Type} (d : PyTreeDef) :
  forall (ls : list A) t rest,
    unflatten_from d ls = Some (t, rest) ->
    tree_structure t = d /\ ls = tree_leaves t ++ rest.
Proof.
  induction d as [|k ds IH] using PyTreeDef_rect'; intros ls t rest Hu.
  - simpl in Hu. destruct ls as [|a ls]; [discriminate|].
    injection Hu as <- <-. split; reflexivity.
  - rewrite unflatten_from_node in Hu.
    destruct (unflatten_children ds ls) as [[ts r]|] eqn:E; [|discriminate].
    injection Hu as <- <-.
    destruct (unflatten_children_structure ds IH ls ts r E) as [Hs Hl].
    simpl. split; [now rewrite Hs|exact Hl].
Qed.

Lemma tree_unflatten_structure {A : Type} (d : PyTreeDef) (ls : list A)
    (t : PyTree A) :
  tree_unflatten d ls = Ok t -> tree_structure t = d /\ tree_leaves t = ls.
Proof.
  unfold tree_unflatten. intros H.
  destruct (unflatten_from d ls) as [[t' [|a r]]|] eqn:E; try discriminate.
  injection H as <-.
  destruct (unflatten_from_structure d ls t' [] E) as [Hs Hl].
  split; [exact Hs|]. now rewrite Hl, app_nil_r.
Qed.

(** X1: flattening and rebuilding are inverse to each other: a container
    is rebuilt from its leaves and its structure; a container rebuilt
    from leaves and a structure flattens to them; and rebuilding fails
    whenever the leaves are not exactly as many as the structure has. *)
Theorem tree_flatten_round_trip (A : Type) :
  (forall t : PyTree A,
      tree_unflatten (snd (tree_flatten t)) (fst (tree_flatten t)) = Ok t)
  /\ (forall (d : PyTreeDef) (ls : list A) (t : PyTree A),
         tree_unflatten d ls = Ok t -> tree_flatten t = (ls, d))
  /\ (forall (d : PyTreeDef) (ls : list A),
         length ls <> num_leaves d ->
         tree_unflatten d ls = Raise ValueError).
Proof.
  split; [|split].
  - intros t. apply tree_unflatten_flatten.
  - intros d ls t H. destruct (tree_unflatten_structure d ls t H) as [Hs Hl].
    unfold tree_flatten. now rewrite Hs, Hl.
  - intros d ls Hlen.
    destruct (tree_unflatten d ls) as [t|e] eqn:E.
    + destruct (tree_unflatten_structure d ls t E) as [Hs Hl].
      elim Hlen. now rewrite <- Hl, <- Hs, tree_leaves_count.
    + unfold tree_unflatten in E.
      destruct (unflatten_from d ls) as [[t' [|a r]]|]; congruence.
Qed.

Lemma tree_flatten_round_trip_witness :
  tree_flatten
    (Node PyTuple [Leaf 1; Node (PyDict ["a"%string]) [Leaf 2]; Node PyNone []])
  = ([1; 2],
     DNode PyTuple [DLeaf; DNode (PyDict ["a"%string]) [DLeaf]; DNode PyNone []])
  /\ tree_unflatten (DNode PyList [DLeaf; DLeaf]) [1] = Raise ValueError.
Proof.
  split.
  - exact (proj1 (proj2 (tree_flatten_round_trip Z))
             (DNode PyTuple [DLeaf; DNode (PyDict ["a"%string]) [DLeaf];
                             DNode PyNone []])
             [1; 2]
             (Node PyTuple [Leaf 1; Node (PyDict ["a"%string]) [Leaf 2];
                            Node PyNone []])
             eq_refl).
  - refine (proj2 (proj2 (tree_flatten_round_trip Z))
              (DNode PyList [DLeaf; DLeaf]) [1] _).
    discriminate.
Defined.

(* ================================================================== *)
(** ** Further properties: [tree_where] *)

Lemma flatten_up_to_raises {L : Type} (d : PyTreeDef) :
  forall (t : PyTree L) (e : exn),
    flatten_up_to d t = Raise e -> e = ValueError.
Proof.
  induction d as [|k ds IH] using PyTreeDef_rect'; intros t e H.
  - discriminate H.
  - destruct t as [a|k' ts]; [simpl in H; congruence|].
    rewrite flatten_up_to_node in H.
    destruct (negb (NodeKind_eqb k k')); [congruence|].
    revert ts H. induction IH as [|d ds Hd _ IHds]; intros [|t ts] H;
      simpl in H; try congruence.
    destruct (flatten_up_to d t) as [xs|e'] eqn:E1; simpl in H.
    + destruct (flatten_children_up_to ds ts) as [ys|e''] eqn:E2;
        simpl in H; [discriminate|].
      injection H as <-. now apply (IHds ts).
    + injection H as <-. now apply (Hd t).
Qed.

Lemma flatten_children_arity {L : Type} (ds : list PyTreeDef) :
  forall ts : list (PyTree L),
    length ds <> length ts ->
    flatten_children_up_to ds ts = Raise ValueError.
Proof.
  induction ds as [|d ds IH]; intros [|t ts] Hlen; simpl in *;
    try congruence.
  destruct (flatten_up_to d t) as [xs|e] eqn:E; simpl.
  - rewrite IH; [reflexivity|congruence].
  - now rewrite (flatten_up_to_raises d t e E).
Qed.

Lemma select_leaves {L : Type} (w : bool -> L -> PyTree L -> result L)
    (pred : bool) (la : list L) :
  forall lb : list L,
    length la = length lb ->
    (forall a b, In (a, b) (combine la lb) ->
                 w pred a (Leaf b) = Ok (if pred then a else b)) ->
    comprehension (fun ab => w pred (fst ab) (snd ab))
                  (combine la (map Leaf lb))
    = Ok (if pred then la else lb).
Proof.
  induction la as [|a la IH]; intros [|b lb] Hlen Hw; simpl in *;
    try discriminate.
  - now destruct pred.
  - rewrite (Hw a b (or_introl eq_refl)). simpl.
    rewrite IH; [|congruence|intros; apply Hw; now right].
    now destruct pred.
Qed.

(** X6: whenever [tree_where] returns a container, that container has
    the structure of [true_], whatever the predicate, the second
    container and the leaf-wise [where] are; it has as many leaves. *)
Theorem tree_where_structure (L : Type)
    (jnp_where : bool -> L -> PyTree L -> result L) (pred : bool)
    (true_ false_ r : PyTree L) :
  tree_where jnp_where pred true_ false_ = Ok r ->
  tree_structure r = tree_structure true_
  /\ length (tree_leaves r) = length (tree_leaves true_).
Proof.
  unfold tree_where, tree_map2, tree_flatten. intros H.
  destruct (flatten_up_to (tree_structure true_) false_) as [rest|e];
    [|discriminate].
  simpl in H.
  destruct (comprehension _ (combine (tree_leaves true_) rest)) as [outs|e];
    [|discriminate].
  simpl in H.
  destruct (tree_unflatten_structure _ _ _ H) as [Hs Hl].
  split; [exact Hs|]. now rewrite !tree_leaves_count, Hs.
Qed.

Lemma tree_where_structure_witness :
  tree_structure (Node PyList [Leaf [1]; Leaf [2; 3]])
  = tree_structure (Node PyList [Leaf [7]; Leaf [8; 9]])
  /\ length (tree_leaves (Node PyList [Leaf [1]; Leaf [2; 3]]))
     = length (tree_leaves (Node PyList [Leaf [7]; Leaf [8; 9]])).
Proof.
  exact (tree_where_structure (list Z) where_same_shape false
           (Node PyList [Leaf [7]; Leaf [8; 9]])
           (Node PyList [Leaf [1]; Leaf [2; 3]])
           (Node PyList [Leaf [1]; Leaf [2; 3]])
           eq_refl).
Defined.

(** X7: on two containers of the same structure whose corresponding
    leaves the leaf-wise [where] selects between (leaves of one shape
    and dtype), [tree_where] returns the first container when the
    predicate is true and the second when it is false. *)
Theorem tree_where_selects (L : Type)
    (jnp_where : bool -> L -> PyTree L -> result L) (pred : bool)
    (true_ false_ : PyTree L) :
  tree_structure false_ = tree_structure true_ ->
  (forall a b,
      In (a, b) (combine (tree_leaves true_) (tree_leaves false_)) ->
      jnp_where pred a (Leaf b) = Ok (if pred then a else b)) ->
  tree_where jnp_where pred true_ false_
  = Ok (if pred then true_ else false_).
Proof.
  intros Hs Hw. unfold tree_where, tree_map2, tree_flatten.
  rewrite <- Hs at 1. rewrite flatten_up_to_self. simpl bind.
  rewrite select_leaves; [|now rewrite !tree_leaves_count, Hs|exact Hw].
  simpl bind. destruct pred.
  - apply tree_unflatten_flatten.
  - rewrite <- Hs. apply tree_unflatten_flatten.
Qed.

Lemma tree_where_selects_witness :
  tree_where where_same_shape true
    (Node PyTuple [Leaf [7]; Node PyList [Leaf [8; 9]]])
    (Node PyTuple [Leaf [1]; Node PyList [Leaf [2; 3]]])
  = Ok (Node PyTuple [Leaf [7]; Node PyList [Leaf [8; 9]]])
  /\ tree_where where_same_shape false
       (Node PyTuple [Leaf [7]; Node PyList [Leaf [8; 9]]])
       (Node PyTuple [Leaf [1]; Node PyList [Leaf [2; 3]]])
     = Ok (Node PyTuple [Leaf [1]; Node PyList [Leaf [2; 3]]]).
Proof.
  split.
  - refine (tree_where_selects (list Z) where_same_shape true
              (Node PyTuple [Leaf [7]; Node PyList [Leaf [8; 9]]])
              (Node PyTuple [Leaf [1]; Node PyList [Leaf [2; 3]]])
              eq_refl _).
    intros a b [H|[H|[]]]; injection H as <- <-; reflexivity.
  - refine (tree_where_selects (list Z) where_same_shape false
              (Node PyTuple [Leaf [7]; Node PyList [Leaf [8; 9]]])
              (Node PyTuple [Leaf [1]; Node PyList [Leaf [2; 3]]])
              eq_refl _).
    intros a b [H|[H|[]]]; injection H as <- <-; reflexivity.
Defined.

(** X8: [tree_where] fails with the structure error of [tree_map], and
    selects nothing, when the first container has a node where the
    second has a leaf, a node of another kind or a node with another
    number of children; the predicate and the leaf-wise [where] play no
    part. *)
Theorem tree_where_structure_mismatch (L : Type)
    (jnp_where : bool -> L -> PyTree L -> result L) (pred : bool)
    (k : NodeKind) (ts : list (PyTree L)) :
  (forall b, tree_where jnp_where pred (Node k ts) (Leaf b)
             = Raise ValueError)
  /\ (forall k' ts',
         NodeKind_eqb k k' = false \/ length ts <> length ts' ->
         tree_where jnp_where pred (Node k ts) (Node k' ts')
         = Raise ValueError).
Proof.
  split.
  - intros b. reflexivity.
  - intros k' ts' H. unfold tree_where, tree_map2, tree_flatten.
    change (tree_structure (Node k ts)) with (DNode k (map tree_structure ts)).
    rewrite flatten_up_to_node.
    destruct (NodeKind_eqb k k') eqn:E; simpl negb; cbv iota; [|reflexivity].
    destruct H as [H|H]; [discriminate|].
    rewrite flatten_children_arity; [reflexivity|].
    now rewrite length_map.
Qed.

Lemma tree_where_structure_mismatch_witness :
  tree_where where_same_shape true
    (Node PyList [Leaf [1]; Leaf [2]]) (Node PyList [Leaf [1]])
  = Raise ValueError
  /\ tree_where where_same_shape true
       (Node PyList [Leaf [1]]) (Node PyTuple [Leaf [1]])
     = Raise ValueError.
Proof.
  split.
  - refine (proj2 (tree_where_structure_mismatch (list Z) where_same_shape
                     true PyList [Leaf [1]; Leaf [2]])
                  PyList [Leaf [1]] _).
    right. discriminate.
  - refine (proj2 (tree_where_structure_mismatch (list Z) where_same_shape
                     true PyList [Leaf [1]])
                  PyTuple [Leaf [1]] _).
    left. reflexivity.
Defined.

(* ================================================================== *)
(** ** Further properties: the cached shape inference *)

Lemma tree_map_idempotent {A : Type} (f : A -> A) (t : PyTree A) :
  (forall a, f (f a) = f a) -> tree_map f (tree_map f t) = tree_map f t.
Proof.
  intros Hf. induction t as [a|k ts IH] using PyTree_rect'; simpl.
  - now rewrite Hf.
  - f_equal. induction IH as [|t ts Ht _ IHts]; simpl; [reflexivity|].
    now rewrite Ht, IHts.
Qed.

Lemma to_struct_idempotent {Static Data : Type} (x : leaf Static Data) :
  _to_struct (_to_struct x) = _to_struct x.
Proof. now destruct x. Qed.

(** X2: the key that [cached_eval_shape] builds, taken apart again
    inside [_cached_eval_shape], gives [fn], [args] and [kwargs] back
    with every array replaced by its shape and dtype: inference is run
    on those, never on the elements of an array; and the key of the
    arguments so replaced is the key of the arguments themselves. *)
Theorem cached_key_round_trip (Static Data Out : Type)
    (filter_eval_shape :
       PyTree (leaf Static Data) -> PyTree (leaf Static Data) ->
       PyTree (leaf Static Data) -> result Out)
    (fn args kwargs : PyTree (leaf Static Data)) :
  _cached_eval_shape_body filter_eval_shape (signature fn args kwargs)
  = filter_eval_shape (tree_map _to_struct fn) (tree_map _to_struct args)
                      (tree_map _to_struct kwargs)
  /\ signature (tree_map _to_struct fn) (tree_map _to_struct args)
               (tree_map _to_struct kwargs)
     = signature fn args kwargs.
Proof.
  split.
  - unfold signature, tree_flatten, _cached_eval_shape_body.
    now rewrite tree_unflatten_flatten.
  - unfold signature, tree_flatten. simpl.
    now rewrite !(tree_map_idempotent _to_struct _ to_struct_idempotent).
Qed.

Lemma lru_call_repeat {K V : Type} (hashable : K -> bool)
    (key_eqb : K -> K -> bool) (n : nat)
    (f g : K -> result V) (c c1 : lru K V) (k : K) (v : V) :
  lru_call hashable key_eqb n f c k = (Ok v, c1) ->
  key_eqb k k = true ->
  lru_call hashable key_eqb n g c1 k = (Ok v, c1).
Proof.
  unfold lru_call. intros H Hrefl.
  destruct (hashable k); cbn [negb] in *; [|discriminate].
  destruct (lru_find key_eqb k c) as [[entry rest]|] eqn:Efind.
  - injection H as <- <-.
    destruct (lru_find_hit K V key_eqb k c entry rest Efind) as [Hk _].
    destruct entry as [k0 v0]. simpl in *. now rewrite Hk.
  - destruct (f k) as [v'|e]; [|discriminate].
    injection H as <- <-. simpl. now rewrite Hrefl.
Qed.

(** X3: once a call of [cached_eval_shape] has returned a result, a call
    whose arguments differ from it at most in the elements of arrays
    (same function, shapes, dtypes and structure) returns that result
    from the cache, which it leaves as it is: inference is not run
    again, whatever it would return. *)
Theorem cached_eval_shape_hit (Static : Type)
    (static_eqb : Static -> Static -> bool) (Data Out : Type)
    (filter_eval_shape filter_eval_shape' :
       PyTree (leaf Static Data) -> PyTree (leaf Static Data) ->
       PyTree (leaf Static Data) -> result Out)
    (cache cache1 : lru (key Static Data) Out)
    (fn args kwargs fn' args' kwargs' : PyTree (leaf Static Data))
    (v : Out) :
  cached_eval_shape static_eqb filter_eval_shape cache fn args kwargs
  = (Ok v, cache1) ->
  key_eqb static_eqb (signature fn args kwargs) (signature fn args kwargs)
  = true ->
  tree_map _to_struct fn' = tree_map _to_struct fn ->
  tree_map _to_struct args' = tree_map _to_struct args ->
  tree_map _to_struct kwargs' = tree_map _to_struct kwargs ->
  cached_eval_shape static_eqb filter_eval_shape' cache1 fn' args' kwargs'
  = (Ok v, cache1).
Proof.
  unfold cached_eval_shape, _cached_eval_shape.
  intros Hcall Hrefl Hfn Hargs Hkwargs.
  assert (signature fn' args' kwargs' = signature fn args kwargs) as ->.
  { unfold signature, tree_flatten. simpl. now rewrite Hfn, Hargs, Hkwargs. }
  now apply (lru_call_repeat _ _ _ _ _ _ _ _ _ Hcall).
Qed.

Lemma cached_eval_shape_hit_witness :
  let fn : PyTree (leaf Z Z) := Leaf (StaticLeaf 1) in
  let args (data : Z) : PyTree (leaf Z Z) :=
    Node PyTuple [Leaf (ArrayLeaf [2; 3]%nat float32 false data)] in
  let kwargs : PyTree (leaf Z Z) := Node (PyDict []) [] in
  let cache1 :=
    snd (cached_eval_shape Z.eqb echo_eval_shape [] fn (args 5) kwargs) in
  cached_eval_shape Z.eqb (fun _ _ _ => Raise ValueError) cache1
                    fn (args 7) kwargs
  = (Ok [([2; 3]%nat, float32)], cache1).
Proof.
  intros fn args kwargs cache1.
  exact (cached_eval_shape_hit Z Z.eqb Z (list (list nat * dtype))
           echo_eval_shape (fun _ _ _ => Raise ValueError) [] cache1
           fn (args 5) kwargs fn (args 7) kwargs
           [([2; 3]%nat, float32)]
           eq_refl eq_refl eq_refl eq_refl eq_refl).
Defined.

(** X4: when a call of [cached_eval_shape] raises, the cache is left as
    it was, a failure being never stored; and the exception is the
    [TypeError] of the cache when a leaf that is not an array cannot be
    hashed, and otherwise the one inference raised on the arguments with
    arrays replaced by their shapes and dtypes. *)
Theorem cached_eval_shape_raise (Static : Type)
    (static_eqb : Static -> Static -> bool) (Data Out : Type)
    (filter_eval_shape :
       PyTree (leaf Static Data) -> PyTree (leaf Static Data) ->
       PyTree (leaf Static Data) -> result Out)
    (cache cache1 : lru (key Static Data) Out)
    (fn args kwargs : PyTree (leaf Static Data)) (e : exn) :
  cached_eval_shape static_eqb filter_eval_shape cache fn args kwargs
  = (Raise e, cache1) ->
  cache1 = cache
  /\ (key_hashable (signature fn args kwargs) = false -> e = TypeError)
  /\ (key_hashable (signature fn args kwargs) = true ->
      filter_eval_shape (tree_map _to_struct fn) (tree_map _to_struct args)
                        (tree_map _to_struct kwargs)
      = Raise e).
Proof.
  unfold cached_eval_shape, _cached_eval_shape, lru_call. intros H.
  destruct (key_hashable (signature fn args kwargs)); cbn [negb] in H.
  - destruct (lru_find _ _ cache) as [[entry rest]|]; [discriminate|].
    destruct (_cached_eval_shape_body filter_eval_shape
                (signature fn args kwargs)) as [v|e'] eqn:E; [discriminate|].
    injection H as <- <-. split; [reflexivity|]. split; [discriminate|].
    intros _.
    unfold signature, tree_flatten, _cached_eval_shape_body in E.
    now rewrite tree_unflatten_flatten in E.
  - injection H as <- <-. split; [reflexivity|].
    split; [reflexivity|discriminate].
Qed.

Lemma cached_eval_shape_raise_witness :
  let fn : PyTree (leaf Z Z) := Leaf (StaticLeaf 1) in
  let args : PyTree (leaf Z Z) :=
    Node PyTuple [Leaf (ArrayLeaf [2; 3]%nat float32 false 5);
                  Leaf (UnhashableLeaf 2)] in
  let kwargs : PyTree (leaf Z Z) := Node (PyDict []) [] in
  exists e cache1,
    cached_eval_shape Z.eqb echo_eval_shape [] fn args kwargs
    = (Raise e, cache1)
    /\ cache1 = [] /\ e = TypeError.
Proof.
  intros fn args kwargs. exists TypeError, []. split; [reflexivity|].
  destruct (cached_eval_shape_raise Z Z.eqb Z (list (list nat * dtype))
              echo_eval_shape [] [] fn args kwargs TypeError eq_refl)
    as [Hcache [Herr _]].
  split; [exact Hcache|exact (Herr eq_refl)].
Defined.

Lemma cached_eval_shapes_bounded (Static : Type)
    (static_eqb : Static -> Static -> bool) (Data Out : Type)
    (filter_eval_shape :
       PyTree (leaf Static Data) -> PyTree (leaf Static Data) ->
       PyTree (leaf Static Data) -> result Out)
    (calls : list (PyTree (leaf Static Data) * PyTree (leaf Static Data)
                   * PyTree (leaf Static Data))) :
  forall cache,
    (length cache <= 128)%nat ->
    (length (snd (cached_eval_shapes static_eqb filter_eval_shape cache calls))
     <= 128)%nat.
Proof.
  induction calls as [|[[fn args] kwargs] calls IH]; intros cache Hlen;
    [exact Hlen|].
  simpl. unfold cached_eval_shape, _cached_eval_shape.
  pose proof (lru_call_bounded _ _ key_hashable (key_eqb static_eqb) 128
                (_cached_eval_shape_body filter_eval_shape) cache
                (signature fn args kwargs) ltac:(lia) Hlen) as Hb.
  destruct (lru_call _ _ _ _ cache (signature fn args kwargs)) as [r cache'].
  simpl in Hb. specialize (IH cache' Hb).
  destruct (cached_eval_shapes _ _ cache' calls) as [rs cache''].
  exact IH.
Qed.

(** X5: the cache of [cached_eval_shape] never holds more than 128
    entries, after any sequence of calls, with any inference function
    and any arguments, whether the calls succeed or raise. *)
Theorem cached_eval_shape_bounded (Static : Type)
    (static_eqb : Static -> Static -> bool) (Data Out : Type)
    (filter_eval_shape :
       PyTree (leaf Static Data) -> PyTree (leaf Static Data) ->
       PyTree (leaf Static Data) -> result Out)
    (calls : list (PyTree (leaf Static Data) * PyTree (leaf Static Data)
                   * PyTree (leaf Static Data))) :
  (length (snd (cached_eval_shapes static_eqb filter_eval_shape [] calls))
   <= 128)%nat.
Proof.
  apply cached_eval_shapes_bounded. simpl. lia.
Qed.

(* ================================================================== *)
(** ** Further properties: the two-norm *)

Lemma fmul_neg_neg (fmt : format) (x : float) :
  fmul fmt (fneg x) (fneg x) = fmul fmt x x.
Proof. destruct x as [s|s| |s m e]; try reflexivity; now destruct s. Qed.

Lemma fmul_comm (fmt : format) (x y : float) : fmul fmt x y = fmul fmt y x.
Proof.
  destruct x as [sx|sx| |sx mx ex], y as [sy|sy| |sy my ey];
    try reflexivity; unfold fmul; simpl;
    try (now rewrite xorb_comm).
  now rewrite xorb_comm, Pos.mul_comm, Z.add_comm.
Qed.

Lemma ravel_tree_map {A B : Type} (f : A -> B) (x : PyTree (Array A)) :
  ravel_pytree (tree_map (map f) x) = map f (ravel_pytree x).
Proof.
  unfold ravel_pytree. now rewrite tree_leaves_map, concat_map.
Qed.

Lemma two_norm_of_ravel (fmt : format) (A : Type) (S : Scalar fmt A)
    (x : PyTree (Array A)) :
  two_norm fmt x
  = if Nat.eqb (length (ravel_pytree x)) 0 then pzero
    else _two_norm fmt (ravel_pytree x).
Proof.
  unfold two_norm, two_norm_run.
  now destruct (Nat.eqb (length (ravel_pytree x)) 0).
Qed.

(** X9: the two-norm does not see signs: negating every element of a
    real container, or conjugating every element of a complex one,
    leaves [two_norm] unchanged, bit for bit. *)
Theorem two_norm_negation (fmt : format) :
  (forall x : PyTree (Array float),
      two_norm fmt (tree_map (map fneg) x) = two_norm fmt x)
  /\ (forall x : PyTree (Array complex),
         two_norm fmt (tree_map (map cconj) x) = two_norm fmt x).
Proof.
  split; intros x; rewrite !two_norm_of_ravel, ravel_tree_map, length_map;
    destruct (Nat.eqb (length (ravel_pytree x)) 0); try reflexivity.
  - rewrite !two_norm_real_formula, map_map. f_equal. f_equal.
    apply map_ext. intros a. apply fmul_neg_neg.
  - rewrite !two_norm_complex_formula, map_map. f_equal. f_equal.
    apply map_ext. intros [a b]. unfold abs2, cconj. simpl.
    f_equal. destruct b as [s|s| |s m e]; try reflexivity;
      unfold fmul; simpl; now destruct s.
Qed.

Lemma sum_squares_zero (fmt : format) (x : list float) :
  forallb is_zero x = true ->
  jnp_sum fmt (map (fun a => fmul fmt a a) x) = pzero.
Proof.
  unfold jnp_sum. cbn [reduce_sum ieee_backend].
  induction x as [|a x IH]; [reflexivity|].
  cbn [forallb map fold_left].
  intros H. apply andb_true_iff in H. destruct H as [Ha Hx].
  destruct a as [s| | |]; try discriminate.
  replace (fadd fmt pzero (fmul fmt (S754_zero s) (S754_zero s))) with pzero
    by now destruct s.
  now apply IH.
Qed.

(** X10: at a vector whose elements are all zero, of either sign, the
    two-norm is [+0] and its derivative rule returns the tangent [+0]
    for every tangent vector of that shape, NaN and infinite ones
    included. *)
Theorem two_norm_jvp_at_zero (fmt : format) (x tx : Array float) :
  In fmt float_formats ->
  length tx = length x ->
  forallb is_zero x = true ->
  _two_norm_jvp fmt x tx = Ok (pzero, pzero).
Proof.
  intros Hfmt Hlen Hx. unfold _two_norm_jvp.
  rewrite (jnp_dot_same_length fmt float _ x tx Hlen). cbn [bind].
  rewrite two_norm_real_formula, (sum_squares_zero fmt x Hx).
  change (fsqrt fmt pzero) with pzero. unfold where_.
  change (lax_eq pzero pzero || isinf pzero) with true. cbv iota.
  change (s_div (s_of_Z 0) (fone fmt)) with (fdiv fmt pzero (fone fmt)).
  now rewrite (zero_over_one fmt Hfmt).
Qed.

Lemma two_norm_jvp_at_zero_witness :
  _two_norm_jvp binary32 [pzero; fneg pzero] [nan; pinf] = Ok (pzero, pzero).
Proof.
  exact (two_norm_jvp_at_zero binary32 [pzero; fneg pzero] [nan; pinf]
           (or_intror (or_intror (or_introl eq_refl))) eq_refl eq_refl).
Defined.

Lemma fold_fadd_from_pinf (fmt : format) (l : list float) :
  Forall (fun v => nonneg v = true) l ->
  fold_left (fadd fmt) l pinf = pinf.
Proof.
  induction 1 as [|v l Hv _ IH]; [reflexivity|]. cbn [fold_left].
  replace (fadd fmt pinf v) with pinf; [exact IH|].
  destruct v as [[]|[]| |[] m e]; try discriminate; reflexivity.
Qed.

Lemma sum_squares_infinite (fmt : format) (x : list float) :
  forallb (fun a => negb (isnan a)) x = true ->
  existsb isinf x = true ->
  forall acc, nonneg acc = true ->
    fold_left (fadd fmt) (map (fun a => fmul fmt a a) x) acc = pinf.
Proof.
  induction x as [|a x IH]; [discriminate|].
  cbn [forallb existsb map fold_left].
  intros Hn Hi acc Hacc.
  apply andb_true_iff in Hn. destruct Hn as [Ha Hx].
  apply negb_true_iff in Ha.
  destruct (isinf a) eqn:Ei.
  - destruct a as [|s| |]; try discriminate.
    replace (fadd fmt acc (fmul fmt (S754_infinity s) (S754_infinity s)))
      with pinf.
    + apply fold_fadd_from_pinf. apply Forall_forall. intros v Hv.
      apply in_map_iff in Hv. destruct Hv as [b [<- Hb]].
      apply fmul_self_sign. rewrite forallb_forall in Hx.
      apply negb_true_iff. now apply Hx.
    + unfold fmul; simpl. rewrite xorb_nilpotent.
      destruct acc as [[]|[]| |[] m e]; try discriminate; reflexivity.
  - simpl in Hi. apply IH; auto.
    apply fadd_nonneg; [exact Hacc|now apply fmul_self_sign].
Qed.

(** X11: at a vector with an infinite element and no NaN, the two-norm
    is [+inf] and its derivative rule returns the tangent [+0] for
    every tangent vector of that shape. *)
Theorem two_norm_jvp_at_infinity (fmt : format) (x tx : Array float) :
  In fmt float_formats ->
  length tx = length x ->
  forallb (fun a => negb (isnan a)) x = true ->
  existsb isinf x = true ->
  _two_norm_jvp fmt x tx = Ok (pinf, pzero).
Proof.
  intros Hfmt Hlen Hn Hi. unfold _two_norm_jvp.
  rewrite (jnp_dot_same_length fmt float _ x tx Hlen). cbn [bind].
  rewrite two_norm_real_formula. unfold jnp_sum.
  cbn [reduce_sum ieee_backend].
  rewrite (sum_squares_infinite fmt x Hn Hi pzero eq_refl).
  change (fsqrt fmt pinf) with pinf. unfold where_.
  change (lax_eq pinf pzero || isinf pinf) with true. cbv iota.
  change (s_div (s_of_Z 0) (fone fmt)) with (fdiv fmt pzero (fone fmt)).
  now rewrite (zero_over_one fmt Hfmt).
Qed.

Lemma two_norm_jvp_at_infinity_witness :
  _two_norm_jvp binary64 [of_Z binary64 1; S754_infinity true]
                [nan; of_Z binary64 2]
  = Ok (pinf, pzero).
Proof.
  exact (two_norm_jvp_at_infinity binary64
           [of_Z binary64 1; S754_infinity true] [nan; of_Z binary64 2]
           (or_intror (or_intror (or_intror (or_introl eq_refl))))
           eq_refl eq_refl eq_refl).
Defined.

Lemma fdiv_nan_r (fmt : format) (x : float) : fdiv fmt x nan = nan.
Proof. destruct x; reflexivity. Qed.

(** X12: the guard of the derivative rule masks the zero and the
    infinite norm only: at a vector with a NaN element both the norm
    and the tangent are NaN, for every tangent vector of that shape. *)
Theorem two_norm_jvp_at_nan (fmt : format) (x tx : Array float) :
  length tx = length x ->
  existsb isnan x = true ->
  _two_norm_jvp fmt x tx = Ok (nan, nan).
Proof.
  intros Hlen Hn. unfold _two_norm_jvp.
  rewrite (jnp_dot_same_length fmt float _ x tx Hlen). cbn [bind].
  rewrite two_norm_real_formula. unfold jnp_sum.
  cbn [reduce_sum ieee_backend].
  rewrite (sum_of_squares_nan fmt float (fun a => fmul fmt a a) isnan
             (fmul_self_nan fmt)).
  - change (fsqrt fmt nan) with nan. unfold where_.
    change (lax_eq nan pzero || isinf nan) with false. cbv iota.
    cbn [s_div real_scalar]. now rewrite fdiv_nan_r.
  - clear - Hn. induction x as [|a x IH]; simpl in *; [discriminate|].
    destruct (isnan a); simpl in *; auto.
Qed.

Lemma two_norm_jvp_at_nan_witness :
  _two_norm_jvp binary32 [pzero; nan] [pzero; pzero] = Ok (nan, nan).
Proof.
  exact (two_norm_jvp_at_nan binary32 [pzero; nan] [pzero; pzero]
           eq_refl eq_refl).
Defined.

(* ================================================================== *)
(** ** Further properties: the inner product of two containers *)

Lemma ieee_dot_comm (fmt : format) (a : list float) :
  forall (b : list float) (acc : float),
    fold_left (fun s xy => fadd fmt s (fmul fmt (fst xy) (snd xy)))
              (combine a b) acc
    = fold_left (fun s xy => fadd fmt s (fmul fmt (fst xy) (snd xy)))
                (combine b a) acc.
Proof.
  induction a as [|ai a IH]; intros [|bi b] acc; try reflexivity.
  cbn [combine fold_left fst snd].
  now rewrite (fmul_comm fmt ai bi), IH.
Qed.

Lemma jnp_vdot_comm (fmt : format) (a b : Array float) (p : Precision) :
  jnp_vdot fmt a b p = jnp_vdot fmt b a p.
Proof.
  unfold jnp_vdot. rewrite (Nat.eqb_sym (length a) (length b)).
  destruct (Nat.eqb (length b) (length a)); [|reflexivity].
  cbn [dot_general s_conj real_scalar]. rewrite !map_id.
  unfold ieee_dot. now rewrite ieee_dot_comm.
Qed.

Lemma sum_vdots_comm (fmt : format) (la : list (Array float)) :
  forall (lb : list (Array float)) (acc : pynum),
    sum_vdots fmt acc (combine la lb) = sum_vdots fmt acc (combine lb la).
Proof.
  induction la as [|ai la IH]; intros [|bi lb] acc; try reflexivity.
  cbn [combine sum_vdots].
  rewrite (jnp_vdot_comm fmt ai bi).
  destruct (jnp_vdot fmt bi ai HIGHEST) as [v|e]; [|reflexivity].
  cbn [bind]. apply IH.
Qed.

(** X15: on real containers [tree_dot] is symmetric, bit for bit and
    failure for failure: [tree_dot(a, b)] and [tree_dot(b, a)] return
    the same value or raise the same exception. *)
Theorem tree_dot_symmetric (fmt : format) (a b : PyTree (Array float)) :
  tree_dot fmt a b = tree_dot fmt b a.
Proof.
  unfold tree_dot.
  rewrite (Nat.eqb_sym (length (tree_leaves a)) (length (tree_leaves b))).
  destruct (negb (Nat.eqb (length (tree_leaves b)) (length (tree_leaves a))));
    [reflexivity|].
  apply sum_vdots_comm.
Qed.

(* ================================================================== *)
(** ** Further properties: the max-norm *)

Lemma no_nan_abs (l : list float) : no_nan (map fabs l) = no_nan l.
Proof.
  unfold no_nan. induction l as [|v l IH]; [reflexivity|].
  cbn [map forallb]. rewrite IH. now destruct v.
Qed.

Lemma no_nan_existsb (l : list float) :
  no_nan l = negb (existsb isnan l).
Proof.
  unfold no_nan. induction l as [|v l IH]; [reflexivity|].
  cbn [forallb existsb]. rewrite IH. now destruct (isnan v).
Qed.

(** X16: a max-norm is never negative, and it is NaN exactly when some
    element of some leaf is NaN. *)
Theorem max_norm_sign (x : PyTree (Array float)) (r : float) :
  max_norm x = Ok r ->
  fltb r pzero = false
  /\ (isnan r = true <-> existsb isnan (ravel_pytree x) = true).
Proof.
  intros H. destruct (max_norm_ok x r H) as [[Hnum Hnan] Hmag].
  split; [now apply nonneg_not_lt_zero|].
  rewrite no_nan_abs, no_nan_existsb in Hnum, Hnan.
  destruct (existsb isnan (ravel_pytree x)) eqn:E; simpl in *.
  - rewrite (Hnan eq_refl). split; reflexivity.
  - destruct (Hnum eq_refl) as [Hin _]. split; [|discriminate].
    intros Hr. apply in_map_iff in Hin.
    destruct Hin as [v [<- Hv]].
    assert (isnan v = true) as Hv' by (now destruct v).
    assert (existsb isnan (ravel_pytree x) = true) as Hex
        by (apply existsb_exists; now exists v).
    congruence.
Qed.

Lemma max_norm_sign_witness :
  fltb (of_Z binary32 7) pzero = false
  /\ (isnan (of_Z binary32 7) = true
      <-> existsb isnan
            (ravel_pytree (Node PyList [Leaf [of_Z binary32 1;
                                              of_Z binary32 (-7)];
                                        Leaf [of_Z binary32 3]])) = true).
Proof.
  exact (max_norm_sign
           (Node PyList [Leaf [of_Z binary32 1; of_Z binary32 (-7)];
                         Leaf [of_Z binary32 3]])
           (of_Z binary32 7) eq_refl).
Defined.

(** X17: on a backend that is exact on the numbers that are not
    subnormal, and on a container that holds no subnormal number, a
    max-norm is zero exactly for the zero container: when [max_norm]
    returns, its result is [+0] if and only if every element of every
    leaf is a zero. *)
Theorem max_norm_definite (fmt : format) (O : Order)
    (x : PyTree (Array float)) (r : float) :
  exact_on_normals fmt O ->
  Forall (fun v => is_subnormal fmt v = false) (ravel_pytree x) ->
  max_norm (O := O) x = Ok r ->
  (r = pzero <-> forallb is_zero (ravel_pytree x) = true).
Proof.
  intros [Habs [Hmax Hred]] He H.
  destruct (max_norm_returns (fun v => is_subnormal fmt v = false)
              eq_refl (fun v Hv => eq_trans (subnormal_abs fmt v) Hv)
              Habs Hmax Hred x r H He) as [[Hnum Hnan] Hmag].
  split.
  - intros ->.
    destruct (no_nan (map fabs (ravel_pytree x))) eqn:E;
      [|specialize (Hnan eq_refl); discriminate].
    destruct (Hnum eq_refl) as [_ Hle]. rewrite Forall_forall in Hle.
    apply forallb_forall. intros v Hv.
    specialize (Hle (fabs v) (in_map fabs _ v Hv)).
    destruct v as [s|s| |s m e]; try discriminate; reflexivity.
  - intros Hz.
    assert (no_nan (map fabs (ravel_pytree x)) = true) as E.
    { rewrite no_nan_abs. apply forallb_forall. intros v Hv.
      rewrite forallb_forall in Hz. specialize (Hz v Hv). now destruct v. }
    destruct (Hnum E) as [Hin _].
    apply in_map_iff in Hin. destruct Hin as [v [<- Hv]].
    rewrite forallb_forall in Hz. specialize (Hz v Hv).
    destruct v; try discriminate; reflexivity.
Qed.

Lemma max_norm_definite_witness :
  (pzero = pzero
   <-> forallb is_zero
         (ravel_pytree (Node PyTuple [Leaf [pzero]; Leaf [fneg pzero; pzero]]))
       = true)
  /\ (of_Z binary32 2 = pzero
      <-> forallb is_zero (ravel_pytree (Leaf [pzero; of_Z binary32 (-2)]))
          = true).
Proof.
  split.
  - refine (max_norm_definite binary32 ieee_order
              (Node PyTuple [Leaf [pzero]; Leaf [fneg pzero; pzero]])
              pzero (ieee_order_exact binary32) _ eq_refl).
    repeat constructor.
  - refine (max_norm_definite binary32 (flushing_order binary32)
              (Leaf [pzero; of_Z binary32 (-2)])
              (of_Z binary32 2) (flushing_order_exact binary32) _ eq_refl).
    repeat constructor.
Defined.

Lemma comprehension_map {A B C : Type} (g : A -> B) (f : B -> result C)
    (l : list A) :
  comprehension f (map g l) = comprehension (fun a => f (g a)) l.
Proof.
  induction l as [|a l IH]; [reflexivity|].
  cbn [map comprehension]. now rewrite IH.
Qed.

Lemma comprehension_ext {A B : Type} (f g : A -> result B) (l : list A) :
  (forall a, f a = g a) -> comprehension f l = comprehension g l.
Proof.
  intros H. induction l as [|a l IH]; [reflexivity|].
  cbn [comprehension]. now rewrite H, IH.
Qed.

Lemma jnp_abs_neg (l : Array float) : jnp_abs (map fneg l) = jnp_abs l.
Proof.
  unfold jnp_abs. rewrite map_map. apply map_ext.
  intros v. now destruct v.
Qed.

(** X18: the max-norm does not see signs: negating every element of a
    container leaves [max_norm] unchanged, value for value and failure
    for failure. *)
Theorem max_norm_negation (x : PyTree (Array float)) :
  max_norm (tree_map (map fneg) x) = max_norm x.
Proof.
  unfold max_norm. rewrite tree_leaves_map, comprehension_map.
  rewrite (comprehension_ext _ (fun xi => jnp_max (jnp_abs xi)));
    [reflexivity|].
  intros l. now rewrite jnp_abs_neg.
Qed.

(* ================================================================== *)
(** ** Further properties: the rank tolerance *)

(** X19: [resolve_rcond] returns a tolerance exactly for the floating
    and complex dtypes; for every other dtype it raises the
    [ValueError] of [finfo], whatever tolerance is supplied. *)
Theorem resolve_rcond_dtype (O : Order) (x64 : bool)
    (rcond : option tolerance) (n m : Z) (dt : dtype) :
  (issubdtype_inexact dt = true ->
   exists t, resolve_rcond x64 rcond n m dt = Ok t)
  /\ (issubdtype_inexact dt = false ->
      resolve_rcond x64 rcond n m dt = Raise ValueError).
Proof.
  unfold resolve_rcond, finfo_eps, issubdtype_inexact.
  destruct (float_format dt) as [f|]; split; intros H; try discriminate.
  - destruct rcond; cbn [bind]; eexists; reflexivity.
  - now destruct rcond.
Qed.

Lemma resolve_rcond_dtype_witness :
  (exists t, resolve_rcond false None 3 5 complex64 = Ok t)
  /\ resolve_rcond true (Some (PyFloat (of_Z binary64 1))) 3 5 int32
     = Raise ValueError.
Proof.
  split.
  - exact (proj1 (resolve_rcond_dtype ieee_order false None 3 5 complex64)
                 eq_refl).
  - exact (proj2 (resolve_rcond_dtype ieee_order true
                    (Some (PyFloat (of_Z binary64 1))) 3 5 int32)
                 eq_refl).
Defined.

Lemma fmul_nonneg_finite (fmt : format) (m : positive) (e : Z) (y : float) :
  nonneg y = true -> nonneg (fmul fmt (S754_finite false m e) y) = true.
Proof.
  destruct y as [[]|[]| |[] my ey]; try discriminate; intros _;
    try reflexivity.
  unfold fmul, SFmul. simpl xorb. apply binary_round_aux_nonneg. lia.
Qed.

Lemma of_Z_nonneg (fmt : format) (z : Z) :
  0 <= z -> nonneg (of_Z fmt z) = true.
Proof. intros Hz. now apply binary_normalize_nonneg. Qed.

Lemma finfo_eps_finite (dt : dtype) (eps : float) :
  finfo_eps dt = Ok eps -> exists m e, eps = S754_finite false m e.
Proof.
  destruct dt; simpl; intros H; try discriminate; injection H as <-;
    eexists; eexists; reflexivity.
Qed.

(** A conversion does not make a number negative. *)
Lemma round_to_not_negative (fmt : format) (v : float) :
  fltb v pzero = false -> fltb (round_to fmt v) pzero = false.
Proof.
  destruct v as [s|s| |s m e]; try (intros H; exact H).
  destruct s; [discriminate|]. intros _.
  apply nonneg_not_lt_zero. unfold round_to, cond_Zopp.
  rewrite binary_normalize_nonneg; [reflexivity|lia].
Qed.

(** X20: the resolved tolerance is never negative, on a backend whose
    comparison [<] is the one of the format on the numbers that are not
    subnormal in the dtype of the result, and for a tolerance that, when
    it is an array scalar, is not subnormal there: a supplied tolerance
    comes back converted unless it is negative, where the positive
    machine epsilon replaces it; and the default [eps * max(n, m)] is
    non-negative for sizes that are not both negative. *)
Theorem resolve_rcond_sign (O : Order) (x64 : bool)
    (rcond : option tolerance) (n m : Z) (dt : dtype) (t : float) :
  (forall v, is_subnormal (working_format (canonicalize_dtype x64 dt)) v
             = false ->
             lax_lt v pzero = fltb v pzero) ->
  (forall v, rcond = Some (ArrayScalar v) ->
             is_subnormal (working_format (canonicalize_dtype x64 dt)) v
             = false) ->
  resolve_rcond x64 rcond n m dt = Ok t ->
  (rcond = None -> 0 <= Z.max n m) ->
  fltb t pzero = false.
Proof.
  unfold resolve_rcond. intros Hlt Hnormal H Hsize.
  destruct (finfo_eps dt) as [eps|e] eqn:E; [|now destruct rcond].
  destruct (finfo_eps_finite dt eps E) as [me [ee ->]].
  destruct rcond as [r|]; cbn [bind] in H.
  - assert (round_to (working_format (canonicalize_dtype x64 dt))
              (where_ (negative r) (S754_finite false me ee)
                      (tolerance_value r)) = t) as Ht
        by (now injection H).
    rewrite <- Ht. apply round_to_not_negative.
    assert (negative r = fltb (tolerance_value r) pzero) as Hneg.
    { destruct r as [v|v]; [reflexivity|].
      cbn [negative tolerance_value]. apply Hlt. now apply Hnormal. }
    rewrite Hneg. unfold where_.
    destruct (fltb (tolerance_value r) pzero) eqn:Er; [reflexivity|exact Er].
  - assert (fmul (working_format dt) (S754_finite false me ee)
                 (of_Z (working_format dt) (Z.max n m)) = t) as Ht
        by (now injection H).
    rewrite <- Ht.
    apply nonneg_not_lt_zero.
    rewrite fmul_nonneg_finite; [reflexivity|].
    apply of_Z_nonneg. now apply Hsize.
Qed.

Lemma resolve_rcond_sign_witness :
  fltb (of_Z2 binary64 5 (-52)) pzero = false
  /\ fltb (of_Z2 binary32 1 (-23)) pzero = false.
Proof.
  split.
  - refine (resolve_rcond_sign ieee_order true None 3 5 float64
              (of_Z2 binary64 5 (-52)) (fun v _ => eq_refl) _ eq_refl _).
    + discriminate.
    + intros _. lia.
  - refine (resolve_rcond_sign (flushing_order binary32) false
              (Some (ArrayScalar (of_Z binary32 (-2)))) 3 5 float32
              (of_Z2 binary32 1 (-23)) _ _ eq_refl _).
    + intros v Hv. cbn [lax_lt flushing_order].
      now rewrite (flush_normal binary32 v Hv).
    + intros v Hv. injection Hv as <-. reflexivity.
    + discriminate.
Defined.

(** On the backend that takes subnormal numbers for zero, a negative
    subnormal tolerance is not replaced. *)
Example resolve_rcond_flushed :
  let tiny := S754_finite true 1 (-149) in
  resolve_rcond (O := flushing_order binary32) false
                (Some (ArrayScalar tiny)) 3 5 float32 = Ok tiny
  /\ resolve_rcond false (Some (ArrayScalar tiny)) 3 5 float32
     = Ok (of_Z2 binary32 1 (-23)).
Proof. split; reflexivity. Qed.

Lemma of_Z2_binary64_exact (k : positive) (e : Z) :
  Zpos k < 2 ^ 52 ->
  -1074 <= Zpos (digits2_pos k) + e - 53 <= 971 ->
  of_Z2 binary64 (Zpos k) e
  = S754_finite false (k * 2 ^ Z.to_pos (53 - Zpos (digits2_pos k)))
                (e + Zpos (digits2_pos k) - 53).
Proof.
  intros Hk He. pose proof (size_le_of_lt k 52 ltac:(lia) Hk) as Hd.
  set (d := Zpos (digits2_pos k)) in *.
  unfold of_Z2, binary_normalize, binary_round. simpl fprec. simpl femax.
  fold d. rewrite fexp_normal by lia.
  unfold shl_align.
  destruct (d + e - 53 - e) as [|q|q] eqn:Eq; try lia.
  assert (q = Z.to_pos (53 - d)) as -> by lia.
  rewrite iter_xO_pow.
  replace (e + d - 53) with (d + e - 53) by lia.
  apply binary_round_aux_canonical; [|lia].
  rewrite digits2_shift. fold d.
  rewrite Z2Pos.id by lia.
  rewrite fexp_normal by lia. lia.
Qed.

(** X21: in double precision the default tolerance is exact: with no
    tolerance supplied, [resolve_rcond] returns [max(n, m) * 2^-52]
    without any rounding, for all sizes from 0 up to [2^52]. *)
Theorem resolve_rcond_default_exact (O : Order) (x64 : bool) (n m : Z) :
  0 <= Z.max n m < 2 ^ 52 ->
  resolve_rcond x64 None n m float64
  = Ok (of_Z2 binary64 (Z.max n m) (-52)).
Proof.
  intros [Hlo Hhi]. unfold resolve_rcond. cbn [finfo_eps float_format bind].
  f_equal. change (working_format float64) with binary64.
  destruct (Z.max n m) as [|k|k]; [reflexivity| |lia].
  pose proof (size_le_of_lt k 52 ltac:(lia) Hhi) as Hd.
  assert (0 < Zpos (digits2_pos k)) as Hd0 by lia.
  rewrite of_Z_binary64_exact by exact Hhi.
  rewrite (of_Z2_binary64_exact k (-52) Hhi ltac:(lia)).
  change (of_Z2 binary64 1 (1 - fprec binary64))
    with (S754_finite false (2 ^ 52) (-104)).
  unfold fmul, SFmul. simpl xorb. simpl fprec. simpl femax.
  set (d := Zpos (digits2_pos k)) in *.
  rewrite (Pos.mul_comm (2 ^ 52)).
  replace (-52 + d - 53) with (-104 + (d - 53) + Zpos 52) by lia.
  apply binary_round_aux_shift.
  - rewrite digits2_shift. fold d. rewrite Z2Pos.id by lia.
    rewrite fexp_normal; lia.
  - lia.
Qed.

Lemma resolve_rcond_default_exact_witness :
  resolve_rcond true None 1000 30 float64 = Ok (of_Z2 binary64 1000 (-52)).
Proof.
  refine (resolve_rcond_default_exact ieee_order true 1000 30 _).
  split; [discriminate|reflexivity].
Defined.

(* ================================================================== *)
(** ** Further properties: the choice of the differentiation mode *)

(** X22: the choice is monotone: where forward mode is chosen for some
    sizes, it is chosen as well for every smaller input size and larger
    output size (sizes below [2^50]). *)
Theorem jacobian_monotone (Fn JacFn : Type)
    (jax_jacfwd jax_jacrev : Fn -> bool -> JacFn) (fn : Fn) (has_aux : bool)
    (in_size out_size in_size' out_size' : Z) :
  0 <= out_size <= out_size' -> out_size' < 2 ^ 50 ->
  in_size' <= in_size ->
  prefer_forward in_size out_size = Ok true ->
  jacobian jax_jacfwd jax_jacrev fn in_size' out_size' has_aux
  = Ok (jax_jacfwd fn has_aux).
Proof.
  intros Hout Hout' Hin H. unfold jacobian.
  rewrite prefer_forward_exact in H by lia.
  rewrite prefer_forward_exact by lia.
  assert ((in_size <? 100) || (2 * in_size <=? 3 * out_size) = true) as H'
      by (now injection H).
  apply orb_true_iff in H'.
  assert ((in_size' <? 100) || (2 * in_size' <=? 3 * out_size') = true) as ->;
    [|reflexivity].
  apply orb_true_iff. destruct H' as [H'|H'].
  - left. apply Z.ltb_lt in H'. apply Z.ltb_lt. lia.
  - right. apply Z.leb_le in H'. apply Z.leb_le. lia.
Qed.

Lemma jacobian_monotone_witness :
  jacobian (fun (_ : unit) (_ : bool) => forward_mode)
           (fun _ _ => reverse_mode) tt 140 101 true
  = Ok forward_mode.
Proof.
  refine (jacobian_monotone unit ad_mode (fun _ _ => forward_mode)
            (fun _ _ => reverse_mode) tt true 150 100 140 101 _ _ _ eq_refl).
  - split; discriminate.
  - reflexivity.
  - discriminate.
Defined.

(** X23: what the heuristic gives in the common cases: forward mode for
    fewer than 100 inputs whatever the number of outputs; forward mode
    when the outputs are at least as many as the inputs; reverse mode
    for 100 inputs or more when they exceed one and a half times the
    outputs, as for the gradient of a scalar function. *)
Theorem jacobian_cases (Fn JacFn : Type)
    (jax_jacfwd jax_jacrev : Fn -> bool -> JacFn) (fn : Fn) (has_aux : bool)
    (in_size out_size : Z) :
  (in_size < 100 ->
   jacobian jax_jacfwd jax_jacrev fn in_size out_size has_aux
   = Ok (jax_jacfwd fn has_aux))
  /\ (0 <= in_size <= out_size -> out_size < 2 ^ 50 ->
      jacobian jax_jacfwd jax_jacrev fn in_size out_size has_aux
      = Ok (jax_jacfwd fn has_aux))
  /\ (100 <= in_size -> 0 <= out_size < 2 ^ 50 ->
      3 * out_size < 2 * in_size ->
      jacobian jax_jacfwd jax_jacrev fn in_size out_size has_aux
      = Ok (jax_jacrev fn has_aux)).
Proof.
  unfold jacobian. split; [|split].
  - intros H. unfold prefer_forward.
    apply Z.ltb_lt in H. now rewrite H.
  - intros Hin Hout. rewrite prefer_forward_exact by lia.
    assert ((2 * in_size <=? 3 * out_size) = true) as -> by (apply Z.leb_le; lia).
    now rewrite orb_true_r.
  - intros Hin Hout Hlt. rewrite prefer_forward_exact by lia.
    assert ((in_size <? 100) = false) as -> by (apply Z.ltb_ge; lia).
    assert ((2 * in_size <=? 3 * out_size) = false) as ->
        by (apply Z.leb_gt; lia).
    reflexivity.
Qed.

Lemma jacobian_cases_witness :
  jacobian (fun (_ : unit) (_ : bool) => forward_mode)
           (fun _ _ => reverse_mode) tt 99 1 false = Ok forward_mode
  /\ jacobian (fun (_ : unit) (_ : bool) => forward_mode)
              (fun _ _ => reverse_mode) tt 500 500 false = Ok forward_mode
  /\ jacobian (fun (_ : unit) (_ : bool) => forward_mode)
              (fun _ _ => reverse_mode) tt 100 1 false = Ok reverse_mode.
Proof.
  split; [|split].
  - refine (proj1 (jacobian_cases unit ad_mode (fun _ _ => forward_mode)
                     (fun _ _ => reverse_mode) tt false 99 1) _).
    reflexivity.
  - refine (proj1 (proj2 (jacobian_cases unit ad_mode
                            (fun _ _ => forward_mode)
                            (fun _ _ => reverse_mode) tt false 500 500)) _ _).
    + split; discriminate.
    + reflexivity.
  - refine (proj2 (proj2 (jacobian_cases unit ad_mode
                            (fun _ _ => forward_mode)
                            (fun _ _ => reverse_mode) tt false 100 1)) _ _ _).
    + discriminate.
    + split; [discriminate|reflexivity].
    + reflexivity.
Defined.

(* ================================================================== *)
(** ** Further properties: the coercion to an inexact dtype *)

Lemma inexact_asarray_returns (Data : Type)
    (np_asarray : dtype -> pyscalar -> Data)
    (convert_element_type : dtype -> Data -> Data)
    (x64 : bool) (x : ArrayLike Data) (r : ndarray Data) :
  inexact_asarray np_asarray convert_element_type x64 x = Ok r ->
  arr_dtype r
  = if issubdtype_inexact (result_type x64 x) then result_type x64 x
    else default_floating_dtype x64.
Proof.
  unfold inexact_asarray, _asarray.
  destruct (fits_default_int x64 x); [|discriminate]. cbn [negb].
  intros H. injection H as <-.
  destruct (issubdtype_inexact (result_type x64 x)); now destruct x.
Qed.

(** X24: [inexact_asarray] is idempotent on dtypes: on every input
    that is not a Python [int] beyond the default integer dtype it
    returns, and applied to its own result it returns again and keeps
    the dtype, in either precision mode. *)
Theorem inexact_asarray_idempotent (Data : Type)
    (np_asarray : dtype -> pyscalar -> Data)
    (convert_element_type : dtype -> Data -> Data)
    (x64 : bool) (x : ArrayLike Data) :
  fits_default_int x64 x = true ->
  exists r r',
    inexact_asarray np_asarray convert_element_type x64 x = Ok r
    /\ inexact_asarray np_asarray convert_element_type x64 (Arr r) = Ok r'
    /\ arr_dtype r' = arr_dtype r.
Proof.
  intros Hfit.
  destruct (inexact_asarray np_asarray convert_element_type x64 x)
    as [r|e] eqn:H;
    [|unfold inexact_asarray, _asarray in H; rewrite Hfit in H;
      discriminate H].
  pose proof (inexact_asarray_returns _ _ _ _ _ _ H) as Hr.
  exists r. eexists. split; [reflexivity|]. split; [reflexivity|].
  unfold inexact_asarray, _asarray.
  cbn [fits_default_int negb result_type jnp_asarray arr_dtype].
  rewrite Hr.
  destruct x as [[b|z|v|re im]|[d v]]; cbn [result_type arr_dtype];
    destruct x64; try reflexivity; now destruct d.
Qed.

Lemma inexact_asarray_idempotent_witness :
  exists r r',
    inexact_asarray (fun _ _ => 0) (fun _ (z : Z) => z) false (Py (py_int 3))
    = Ok r
    /\ inexact_asarray (fun _ _ => 0) (fun _ (z : Z) => z) false (Arr r)
       = Ok r'
    /\ arr_dtype r' = arr_dtype r.
Proof.
  exact (inexact_asarray_idempotent Z (fun _ _ => 0) (fun _ z => z) false
           (Py (py_int 3)) eq_refl).
Defined.

(** X25: without 64-bit mode [inexact_asarray] never returns a 64-bit
    dtype: the result is [bfloat16], [float16], [float32] or
    [complex64]; an array of [float64] or [complex128] elements comes
    back in single precision. *)
Theorem inexact_asarray_no_x64 (Data : Type)
    (np_asarray : dtype -> pyscalar -> Data)
    (convert_element_type : dtype -> Data -> Data) (x : ArrayLike Data) :
  fits_default_int false x = true ->
  exists r,
    inexact_asarray np_asarray convert_element_type false x = Ok r
    /\ In (arr_dtype r) [bfloat16; float16; float32; complex64].
Proof.
  intros Hfit.
  destruct (inexact_asarray np_asarray convert_element_type false x)
    as [r|e] eqn:H;
    [|unfold inexact_asarray, _asarray in H; rewrite Hfit in H;
      discriminate H].
  exists r. split; [reflexivity|].
  rewrite (inexact_asarray_returns _ _ _ _ _ _ H).
  destruct x as [[b|z|v|re im]|[d v]]; cbn [result_type arr_dtype];
    try (simpl; tauto).
  destruct d; simpl; tauto.
Qed.

Lemma inexact_asarray_no_x64_witness :
  exists r,
    inexact_asarray (fun _ _ => 0) (fun _ (z : Z) => z) false
                    (Arr (NDArray complex128 7)) = Ok r
    /\ In (arr_dtype r) [bfloat16; float16; float32; complex64].
Proof.
  exact (inexact_asarray_no_x64 Z (fun _ _ => 0) (fun _ z => z)
           (Arr (NDArray complex128 7)) eq_refl).
Defined.

